(** * Clockworkred: the chord service of [src/api/main.py]

    A shallow embedding of the request/response chord pipeline
    ([MusicService.__call__]) and of the streaming endpoint
    ([websocket_endpoint] with its two helper tasks [_heartbeat] and
    [_process_audio]).

    Python coroutines are modelled in a state-and-exception monad whose
    state carries a log of the calls made; the three concurrent activities
    of a websocket session are modelled as a transition system whose
    actions are chosen by the scheduler and the peer.  The lifecycle hooks
    ([startup], [shutdown]) and the dependencies run over the attributes
    of [app.state], and the profiling middleware over the histogram and
    the log. *)

From stdpp Require Import gmap strings list.
From Stdlib Require Import ZArith Lia.

Set Default Proof Using "Type".
Open Scope string_scope.
Open Scope list_scope.
Open Scope Z_scope.

(** ** Exceptions and results *)

(** The collaborator stages the pipeline calls, in the words of the source. *)
Inductive stage :=
  | Decode      (* load_audio *)
  | Extract     (* extract_mfcc *)
  | Denoise     (* denoise *)
  | CacheGet    (* cache.get_chords *)
  | Suggest     (* ChordSuggester.suggest *)
  | CacheSet    (* cache.set_chords *)
  | Generate.   (* AccompanimentGenerator.generate *)

Global Instance stage_eq_dec : EqDecision stage.
Proof. solve_decision. Defined.

(** The exceptions that can travel through [main.py]. *)
Inductive exn :=
  | WebSocketDisconnect           (* starlette: the peer closed the socket *)
  | TransportError                (* any other failure of the socket *)
  | JSONDecodeError               (* receive_json on a frame that is not JSON *)
  | TypeError                     (* unpacking a received value that is not a dict *)
  | ValidationError               (* pydantic: the envelope does not validate *)
  | UnicodeEncodeError            (* str.encode on a lone surrogate *)
  | CapacityExceeded              (* AdaptiveBuffer.add over its ceiling *)
  | CollaboratorFailure (s : stage).

Global Instance exn_eq_dec : EqDecision exn.
Proof. solve_decision. Defined.

Inductive res (A : Type) :=
  | Ok (a : A)
  | Raise (e : exn).
Arguments Ok {A} a.
Arguments Raise {A} e.

Definition is_ok {A} (r : res A) : bool :=
  match r with Ok _ => true | Raise _ => false end.

(** ** The coroutine monad: state, exceptions *)

Definition M (S A : Type) : Type := S -> res A * S.

Definition ret {S A} (a : A) : M S A := fun s => (Ok a, s).

Definition bind {S A B} (m : M S A) (k : A -> M S B) : M S B :=
  fun s => match m s with
           | (Ok a, s') => k a s'
           | (Raise e, s') => (Raise e, s')
           end.

Definition lift {S A} (r : res A) : M S A := fun s => (r, s).

Definition modify {S} (f : S -> S) : M S unit := fun s => (Ok tt, f s).

Global Instance coro_ret {S} : MRet (M S) := fun A a => ret a.
Global Instance coro_bind {S} : MBind (M S) := fun A B k m => bind m k.

(** ** Events *)

(** Where a call runs: on the asyncio event loop that also drives the
    heartbeats and the receive loops, or on starlette's thread pool. *)
Inductive ctx := EventLoop | ThreadPool.

Global Instance ctx_eq_dec : EqDecision ctx.
Proof. solve_decision. Defined.

(** One entry of the call log of a pipeline unit. *)
Record call_event := CallEv { ev_ctx : ctx; ev_stage : stage }.

Global Instance call_event_eq_dec : EqDecision call_event.
Proof. solve_decision. Defined.

(** ** Request and response models *)

Definition Chords := list string.

Record ChordRequest := { file_path : string }.

Record ChordResponse := { chords : Chords; accompaniment : Chords }.

(** ** Collaborators *)

(** The signal-processing and inference functions imported by [main.py].
    Their modules are not part of the verified file, so they are taken as
    an interface: each is a function of its input that may raise. *)
Class Collaborators (Audio Features : Type) := {
  load_audio : string -> res Audio;
  extract_mfcc : Audio -> res Features;
  denoise : Features -> res Features;
  suggest : Features -> res Chords;
  generate : Chords -> res Chords
}.

(** The cache object held by the service ([..utils.cache.RedisCache]): the
    two coroutines the pipeline awaits, over the state of the backend. *)
Class Cache (Features CacheSt : Type) := {
  get_chords : Features -> CacheSt -> res (option Chords) * CacheSt;
  set_chords : Features -> Chords -> CacheSt -> res unit * CacheSt
}.

(** ** MusicService *)

Section MusicService.
Context {Audio Features CacheSt : Type}.
Context `{!Collaborators Audio Features} `{!Cache Features CacheSt}.

(** The world a pipeline unit runs in: the cache backend and the log. *)
Record World := { cache_st : CacheSt; log : list call_event }.

Definition emit (c : ctx) (s : stage) : M World unit :=
  modify (fun w => {| cache_st := cache_st w; log := log w ++ [CallEv c s] |}).

(** [await f(x)] on a coroutine: runs on the event loop. *)
Definition await {A B} (s : stage) (f : A -> res B) (x : A) : M World B :=
  emit EventLoop s;; lift (f x).

(** [await run_in_threadpool(f, x)]. *)
Definition run_in_threadpool {A B} (s : stage) (f : A -> res B) (x : A)
  : M World B :=
  emit ThreadPool s;; lift (f x).

(** A coroutine of the cache object, run against the backend state. *)
Definition on_cache {A} (op : CacheSt -> res A * CacheSt) : M World A :=
  fun w => let (r, c) := op (cache_st w) in
           (r, {| cache_st := c; log := log w |}).

(** [await self.cache.get_chords(features)]. *)
Definition cache_get_chords (features : Features) : M World (option Chords) :=
  emit EventLoop CacheGet;; on_cache (get_chords features).

(** [await self.cache.set_chords(features, chords)]. *)
Definition cache_set_chords (features : Features) (cs : Chords) : M World unit :=
  emit EventLoop CacheSet;; on_cache (set_chords features cs).

(** [MusicService.__call__], lines 140-150. *)
Definition call (req : ChordRequest) : M World ChordResponse :=
  audio_bytes ← await Decode load_audio (file_path req);
  features ← run_in_threadpool Extract extract_mfcc audio_bytes;
  features ← run_in_threadpool Denoise denoise features;
  cached ← cache_get_chords features;
  chords ← match cached with
            | None =>
                chords ← run_in_threadpool Suggest suggest features;
                cache_set_chords features chords;;
                ret chords
            | Some chords => ret chords
            end;
  accompaniment ← run_in_threadpool Generate generate chords;
  ret {| chords := chords; accompaniment := accompaniment |}.

(** The [/chords] route, lines 179-181: [return await service(req)]. *)
Definition suggest_chords (req : ChordRequest) : M World ChordResponse :=
  call req.

(** What a call does, case by case on what its collaborators return. *)
Inductive call_spec (req : ChordRequest) (w : World) : res ChordResponse → World → Prop :=
  | call_decode_fails e :
      load_audio (file_path req) = Raise e →
      call_spec req w (Raise e)
        {| cache_st := cache_st w;
           log := log w ++ [CallEv EventLoop Decode] |}
  | call_extract_fails a e :
      load_audio (file_path req) = Ok a →
      extract_mfcc a = Raise e →
      call_spec req w (Raise e)
        {| cache_st := cache_st w;
           log := log w ++ [CallEv EventLoop Decode; CallEv ThreadPool Extract] |}
  | call_denoise_fails a f e :
      load_audio (file_path req) = Ok a →
      extract_mfcc a = Ok f →
      denoise f = Raise e →
      call_spec req w (Raise e)
        {| cache_st := cache_st w;
           log := log w ++ [CallEv EventLoop Decode; CallEv ThreadPool Extract;
                            CallEv ThreadPool Denoise] |}
  | call_get_fails a f f' e c :
      load_audio (file_path req) = Ok a →
      extract_mfcc a = Ok f →
      denoise f = Ok f' →
      get_chords f' (cache_st w) = (Raise e, c) →
      call_spec req w (Raise e)
        {| cache_st := c;
           log := log w ++ [CallEv EventLoop Decode; CallEv ThreadPool Extract;
                            CallEv ThreadPool Denoise; CallEv EventLoop CacheGet] |}
  | call_hit a f f' cs c r :
      load_audio (file_path req) = Ok a →
      extract_mfcc a = Ok f →
      denoise f = Ok f' →
      get_chords f' (cache_st w) = (Ok (Some cs), c) →
      r = match generate cs with
          | Ok acc => Ok {| chords := cs; accompaniment := acc |}
          | Raise e => Raise e
          end →
      call_spec req w r
        {| cache_st := c;
           log := log w ++ [CallEv EventLoop Decode; CallEv ThreadPool Extract;
                            CallEv ThreadPool Denoise; CallEv EventLoop CacheGet;
                            CallEv ThreadPool Generate] |}
  | call_suggest_fails a f f' c e :
      load_audio (file_path req) = Ok a →
      extract_mfcc a = Ok f →
      denoise f = Ok f' →
      get_chords f' (cache_st w) = (Ok None, c) →
      suggest f' = Raise e →
      call_spec req w (Raise e)
        {| cache_st := c;
           log := log w ++ [CallEv EventLoop Decode; CallEv ThreadPool Extract;
                            CallEv ThreadPool Denoise; CallEv EventLoop CacheGet;
                            CallEv ThreadPool Suggest] |}
  | call_set_fails a f f' c cs e c' :
      load_audio (file_path req) = Ok a →
      extract_mfcc a = Ok f →
      denoise f = Ok f' →
      get_chords f' (cache_st w) = (Ok None, c) →
      suggest f' = Ok cs →
      set_chords f' cs c = (Raise e, c') →
      call_spec req w (Raise e)
        {| cache_st := c';
           log := log w ++ [CallEv EventLoop Decode; CallEv ThreadPool Extract;
                            CallEv ThreadPool Denoise; CallEv EventLoop CacheGet;
                            CallEv ThreadPool Suggest; CallEv EventLoop CacheSet] |}
  | call_miss a f f' c cs c' r :
      load_audio (file_path req) = Ok a →
      extract_mfcc a = Ok f →
      denoise f = Ok f' →
      get_chords f' (cache_st w) = (Ok None, c) →
      suggest f' = Ok cs →
      set_chords f' cs c = (Ok tt, c') →
      r = match generate cs with
          | Ok acc => Ok {| chords := cs; accompaniment := acc |}
          | Raise e => Raise e
          end →
      call_spec req w r
        {| cache_st := c';
           log := log w ++ [CallEv EventLoop Decode; CallEv ThreadPool Extract;
                            CallEv ThreadPool Denoise; CallEv EventLoop CacheGet;
                            CallEv ThreadPool Suggest; CallEv EventLoop CacheSet;
                            CallEv ThreadPool Generate] |}.

(** The log entries a unit added, from world [w] to [w']. *)
Definition new_events (w w' : World) : list call_event :=
  drop (length (log w)) (log w').

(** The error of a failed unit is the error of one of its collaborators. *)
Definition raised_by (req : ChordRequest) (e : exn) : Prop :=
  load_audio (file_path req) = Raise e ∨
  (∃ a, extract_mfcc a = Raise e) ∨
  (∃ f, denoise f = Raise e) ∨
  (∃ f, suggest f = Raise e) ∨
  (∃ cs, generate cs = Raise e).

(** Every collaborator call returns. *)
Definition reliable : Prop :=
  (∀ p, is_ok (load_audio p) = true) ∧
  (∀ a, is_ok (extract_mfcc a) = true) ∧
  (∀ f, is_ok (denoise f) = true) ∧
  (∀ f, is_ok (suggest f) = true) ∧
  (∀ c, is_ok (generate c) = true).

(** Every cache call returns. *)
Definition cache_returns : Prop :=
  (∀ f c, is_ok (get_chords f c).1 = true) ∧
  (∀ f cs c, is_ok (set_chords f cs c).1 = true).

End MusicService.

Arguments World : clear implicits.

(** The stages of some log entries, in order. *)
Definition stages_of (l : list call_event) : list stage := map ev_stage l.

(** The order of the steps as the specification lists them: decode,
    feature extraction, denoise, cache lookup, then on a miss suggestion
    and cache store, then accompaniment generation. *)
Definition spec_order (hit : bool) : list stage :=
  [Decode; Extract; Denoise; CacheGet]
  ++ (if hit then [] else [Suggest; CacheSet])
  ++ [Generate].

(** The stages the specification calls CPU-bound. *)
Definition cpu_bound (s : stage) : bool :=
  match s with
  | Extract | Denoise | Suggest | Generate => true
  | _ => false
  end.

(** ** RedisCache *)

(** A deterministic digest of the features, used as the cache key. *)
Class Fingerprint (Features Key : Type) := fingerprint : Features -> Key.

Section RedisCache.
Context {Features Key : Type} `{Countable Key} `{!Fingerprint Features Key}.

(** Modelled from the spec: [..utils.cache.RedisCache] is imported by
    [main.py] but its module is not part of the verified file.  The
    backend is the redis handle given to the constructor at start-up,
    [None] when redis is not installed or not reachable (lines 94-106),
    and more generally whenever the backend is out.  [get] returns the
    cached result or a miss and never fails its caller: an outage
    degrades to a miss.  [set] is a best-effort write: during an outage
    it does nothing, silently. *)
Definition get_chords_redis (features : Features)
    (redis : option (gmap Key Chords))
  : res (option Chords) * option (gmap Key Chords) :=
  match redis with
  | None => (Ok None, redis)
  | Some entries => (Ok (entries !! fingerprint features), redis)
  end.

(** Modelled from the spec: the best-effort write of [RedisCache]. *)
Definition set_chords_redis (features : Features) (cs : Chords)
    (redis : option (gmap Key Chords))
  : res unit * option (gmap Key Chords) :=
  match redis with
  | None => (Ok tt, redis)
  | Some entries => (Ok tt, Some (<[fingerprint features := cs]> entries))
  end.

(** Modelled from the spec: entries have a bounded time to live; the
    expiry of a key is a move of the backend, not of the service. *)
Definition expire_redis (k : Key) (redis : option (gmap Key Chords))
  : option (gmap Key Chords) :=
  delete k <$> redis.

Global Instance RedisCache : Cache Features (option (gmap Key Chords)) :=
  {| get_chords := get_chords_redis; set_chords := set_chords_redis |}.

End RedisCache.

(** ** Websocket messages *)

(** A Python [str]: its code points. *)
Definition pystr := list Z.

(** A Python [bytes]: its octets. *)
Definition bytes := list Z.

(** The value [json.loads] builds from a text frame; a dict keeps its
    items in insertion order. *)
#[local] Unset Elimination Schemes.
Inductive json :=
  | JNull
  | JBool (b : bool)
  | JNum (z : Z)
  | JStr (s : pystr)
  | JArr (items : list json)
  | JObj (fields : list (string * json)).
#[local] Set Elimination Schemes.

(** An ASCII literal of the source as a [str]. *)
Definition py (s : string) : pystr :=
  map (fun a => Z.of_nat (Ascii.nat_of_ascii a)) (String.list_ascii_of_string s).

(** [d.get(k)] on the fields of a dict; of two items with one key the
    later one is the one the dict holds. *)
Fixpoint dict_get (k : string) (fields : list (string * json)) : option json :=
  match fields with
  | [] => None
  | (k', v) :: rest =>
      match dict_get k rest with
      | Some v' => Some v'
      | None => if decide (k = k') then Some v else None
      end
  end.

(** [class WSMessage(BaseModel): data: str], lines 198-199. *)
Record WSMessage := { data : pystr }.

(** The parts of the streaming path that live outside [main.py]:
    pydantic's validator of a [str] field, the backlog ceiling of the
    AdaptiveBuffer and the features it makes of a window of bytes. *)
Class Streaming (Features : Type) := {
  str_validator : json -> option pystr;
  ceiling : nat;
  window_features : bytes -> Features
}.

(** [WSMessage] built from the received dict, line 230.  Unpacking needs a mapping; a model
    ignores the fields it does not declare, requires [data], and
    validates it as a [str]. *)
Definition WSMessage_init `{!Streaming Features} (v : json) : res WSMessage :=
  match v with
  | JObj fields =>
      match dict_get "data" fields with
      | None => Raise ValidationError
      | Some d =>
          match str_validator d with
          | Some s => Ok {| data := s |}
          | None => Raise ValidationError
          end
      end
  | _ => Raise TypeError
  end.

(** The UTF-8 octets of one code point; surrogates have none. *)
Definition utf8_char (c : Z) : option bytes :=
  if c <? 0 then None
  else if c <? 128 then Some [c]
  else if c <? 2048 then Some [192 + c / 64; 128 + c mod 64]
  else if c <? 65536 then
    if (55296 <=? c) && (c <=? 57343) then None
    else Some [224 + c / 4096; 128 + (c / 64) mod 64; 128 + c mod 64]
  else if c <? 1114112 then
    Some [240 + c / 262144; 128 + (c / 4096) mod 64;
          128 + (c / 64) mod 64; 128 + c mod 64]
  else None.

Fixpoint utf8 (s : pystr) : option bytes :=
  match s with
  | [] => Some []
  | c :: rest =>
      match utf8_char c, utf8 rest with
      | Some b, Some bs => Some (b ++ bs)
      | _, _ => None
      end
  end.

(** [s.encode()]: UTF-8, strict. *)
Definition encode (s : pystr) : res bytes :=
  match utf8 s with
  | Some b => Ok b
  | None => Raise UnicodeEncodeError
  end.

(** The four messages the endpoint sends. *)
Definition ready_msg : json := JObj [("ready", JBool true)].
Definition ack_msg : json := JObj [("ack", JBool true)].
Definition ping_msg : json := JObj [("type", JStr (py "ping"))].
Definition chords_msg (cs : Chords) : json :=
  JObj [("chords", JArr (map (fun c => JStr (py c)) cs))].

Inductive msg_kind := KReady | KAck | KPing | KChords.

Global Instance msg_kind_eq_dec : EqDecision msg_kind.
Proof. solve_decision. Defined.

(** Reading a message back: which of the four shapes it has, if any. *)
Definition kind_of (m : json) : option msg_kind :=
  match m with
  | JObj [(k, JBool true)] =>
      if decide (k = "ready") then Some KReady
      else if decide (k = "ack") then Some KAck else None
  | JObj [(k, JStr s)] =>
      if decide (k = "type" ∧ s = py "ping") then Some KPing
      else None
  | JObj [(k, JArr _)] =>
      if decide (k = "chords") then Some KChords else None
  | _ => None
  end.

(** ** AdaptiveBuffer *)

(** Modelled from the spec: [..utils.buffer.AdaptiveBuffer] is imported by
    [main.py] but its module is not part of the verified file.  The buffer
    holds the bytes added and not yet emitted, and whether it was closed. *)
Record AdaptiveBuffer := { pending : bytes; closed : bool }.

Definition AdaptiveBuffer_new : AdaptiveBuffer :=
  {| pending := []; closed := false |}.

(** Modelled from the spec: [add] appends the chunk, and fails with
    [CapacityExceeded] when the backlog would pass the ceiling. *)
Definition AdaptiveBuffer_add `{!Streaming Features} (chunk : bytes)
    (b : AdaptiveBuffer) : res AdaptiveBuffer :=
  if decide (ceiling < length (pending b ++ chunk))%nat
  then Raise CapacityExceeded
  else Ok {| pending := pending b ++ chunk; closed := closed b |}.

(** Modelled from the spec: closing the buffer, for [features()] to end. *)
Definition AdaptiveBuffer_close (b : AdaptiveBuffer) : AdaptiveBuffer :=
  {| pending := pending b; closed := true |}.

(** Modelled from the spec: [features()] emits the next window once the
    backlog holds it; the size [n] is the choice of the adaptive policy. *)
Definition AdaptiveBuffer_next (n : nat) (b : AdaptiveBuffer)
  : option (bytes * AdaptiveBuffer) :=
  if decide (0 < n <= length (pending b))%nat
  then Some (take n (pending b),
             {| pending := drop n (pending b); closed := closed b |})
  else None.

(** ** The websocket session *)

(** An asyncio task of the session. *)
Inductive task_id := PingTask | ProcessTask.

Inductive task_state :=
  | NotStarted
  | Running
  | Cancelled
  | Crashed (e : exn).     (* the coroutine ended on an exception *)

(** The endpoint coroutine: in its receive loop, or returned; [Closed]
    carries the exception that left the coroutine, if one did. *)
Inductive phase := Active | Closed (escaped : option exn).

(** How a message leaves: [manager.send_json] or [ws.send_json]. *)
Inductive channel := ViaManager | ViaSocket.

(** What a call into the transport does, as the peer and the network
    decide: it returns, or it raises. *)
Inductive outcome := Returns | Raises (e : exn).

Definition res_of (o : outcome) : res unit :=
  match o with Returns => Ok tt | Raises e => Raise e end.

(** What the peer makes [websocket.receive_json()] do. *)
Inductive inbound :=
  | Frame (v : json)     (* a text frame holding JSON *)
  | BadFrame             (* a text frame that is not JSON *)
  | PeerClosed           (* a close frame: WebSocketDisconnect *)
  | SocketError.         (* the transport failed *)

Inductive sevent :=
  | EvConnect (o : outcome)
  | EvSleep (secs : nat)
  | EvSend (ch : channel) (m : json) (o : outcome)
  | EvAdd (chunk : bytes) (ok : bool)
  | EvCall (c : ctx) (s : stage) (ok : bool)
  | EvCancel (t : task_id)
  | EvDisconnect
  | EvLog (msg : string).

Record session := {
  phase_of : phase;
  ping_task : task_state;
  process_task : task_state;
  buffer : AdaptiveBuffer;
  registered : bool;       (* held by the ConnectionManager *)
  trace : list sevent
}.

Definition record (e : sevent) (s : session) : session :=
  {| phase_of := phase_of s; ping_task := ping_task s;
     process_task := process_task s; buffer := buffer s;
     registered := registered s; trace := trace s ++ [e] |}.

Definition set_phase (p : phase) (s : session) : session :=
  {| phase_of := p; ping_task := ping_task s;
     process_task := process_task s; buffer := buffer s;
     registered := registered s; trace := trace s |}.

Definition set_buffer (b : AdaptiveBuffer) (s : session) : session :=
  {| phase_of := phase_of s; ping_task := ping_task s;
     process_task := process_task s; buffer := b;
     registered := registered s; trace := trace s |}.

Definition set_task (t : task_id) (st : task_state) (s : session) : session :=
  {| phase_of := phase_of s;
     ping_task := match t with PingTask => st | ProcessTask => ping_task s end;
     process_task := match t with ProcessTask => st | PingTask => process_task s end;
     buffer := buffer s; registered := registered s; trace := trace s |}.

Definition task (t : task_id) (s : session) : task_state :=
  match t with PingTask => ping_task s | ProcessTask => process_task s end.

(** [task.cancel()]: a task that is done stays as it ended. *)
Definition cancel (t : task_id) (s : session) : session :=
  let s := record (EvCancel t) s in
  match task t s with
  | Running => set_task t Cancelled s
  | _ => s
  end.

(** Modelled from the spec: [..utils.connection.ConnectionManager] is
    imported by [main.py] but its module is not part of the verified file.
    [await manager.disconnect(websocket)] removes the socket from the
    registry; it can be called again.  The tasks of a session are local
    to the endpoint, the manager does not know them. *)
Definition manager_disconnect (s : session) : session :=
  let s := record EvDisconnect s in
  {| phase_of := phase_of s; ping_task := ping_task s;
     process_task := process_task s; buffer := buffer s;
     registered := false; trace := trace s |}.

(** Modelled from the spec: what the ConnectionManager does when the
    transport fails under one of its sends: the session is marked dead and
    disconnected, so that the socket leaves the registry. *)
Definition mark_dead (o : outcome) (s : session) : session :=
  match o with
  | Returns => s
  | Raises _ =>
      {| phase_of := phase_of s; ping_task := ping_task s;
         process_task := process_task s; buffer := buffer s;
         registered := false; trace := trace s |}
  end.

Section Endpoint.
Context {Audio Features : Type}.
Context `{!Collaborators Audio Features} `{!Streaming Features}.

(** Modelled from the spec: [await manager.send_json(ws, m)] of the
    ConnectionManager, whose module is not part of the verified file.
    The message is handed to the transport; when the transport is closed
    or fails, the manager marks the session dead and disconnects it, and
    the failure reaches the caller. *)
Definition manager_send_json (m : json) (o : outcome) : M session unit :=
  modify (record (EvSend ViaManager m o));;
  modify (mark_dead o);;
  lift (res_of o).

(** [await ws.send_json(m)]. *)
Definition ws_send_json (m : json) (o : outcome) : M session unit :=
  modify (record (EvSend ViaSocket m o));; lift (res_of o).

(** [await asyncio.sleep(secs)]. *)
Definition asyncio_sleep (secs : nat) : M session unit :=
  modify (record (EvSleep secs)).

(** [await websocket.receive_json()]. *)
Definition receive_json (i : inbound) : M session json :=
  lift match i with
       | Frame v => Ok v
       | BadFrame => Raise JSONDecodeError
       | PeerClosed => Raise WebSocketDisconnect
       | SocketError => Raise TransportError
       end.

(** [await buffer.add(chunk)]. *)
Definition buffer_add (chunk : bytes) : M session unit :=
  fun s => match AdaptiveBuffer_add chunk (buffer s) with
           | Ok b => (Ok tt, set_buffer b (record (EvAdd chunk true) s))
           | Raise e => (Raise e, record (EvAdd chunk false) s)
           end.

(** [suggester.suggest(features)], called in line: on the event loop. *)
Definition suggester_suggest (features : Features) : M session Chords :=
  fun s => let r := suggest features in
           (r, record (EvCall EventLoop Suggest (is_ok r)) s).

(** One turn of the loop of [_heartbeat], lines 203-205. *)
Definition heartbeat_body (o : outcome) : M session unit :=
  asyncio_sleep 10;;
  ws_send_json ping_msg o.

(** [_heartbeat] as a task: an exception ends the task, and only it. *)
Definition _heartbeat (o : outcome) (s : session) : session :=
  match heartbeat_body o s with
  | (Ok _, s') => s'
  | (Raise e, s') => set_task PingTask (Crashed e) s'
  end.

(** The body of the [async for] of [_process_audio], lines 213-214. *)
Definition process_body (features : Features) (o : outcome) : M session unit :=
  chords ← suggester_suggest features;
  manager_send_json (chords_msg chords) o.

(** [_process_audio] as a task, on the next window of [n] bytes; with
    no window ready the task stays suspended in [buffer.features()]. *)
Definition _process_audio (n : nat) (o : outcome) (s : session) : session :=
  match AdaptiveBuffer_next n (buffer s) with
  | None => s
  | Some (w, b) =>
      match process_body (window_features w) o (set_buffer b s) with
      | (Ok _, s') => s'
      | (Raise e, s') => set_task ProcessTask (Crashed e) s'
      end
  end.

(** The body of the [while True] of the endpoint, lines 229-232. *)
Definition receive_body (i : inbound) (o : outcome) : M session unit :=
  received ← receive_json i;
  msg ← lift (WSMessage_init received);
  chunk ← lift (encode (data msg));
  buffer_add chunk;;
  manager_send_json ack_msg o.

(** The [finally] clause, lines 235-238. *)
Definition finally_block (s : session) : session :=
  manager_disconnect (cancel ProcessTask (cancel PingTask s)).

(** An exception in the [try] block: [WebSocketDisconnect] is caught
    and logged, any other goes on after the [finally] clause. *)
Definition leave_try (e : exn) (s : session) : session :=
  if decide (e = WebSocketDisconnect)
  then set_phase (Closed None)
         (finally_block (record (EvLog "websocket disconnected") s))
  else set_phase (Closed (Some e)) (finally_block s).

Definition in_try (body : M session unit) (s : session) : session :=
  match body s with
  | (Ok _, s') => s'
  | (Raise e, s') => leave_try e s'
  end.

(** [websocket_endpoint] up to its receive loop, lines 222-227.
    Modelled from the spec: [await manager.connect(websocket)] of the
    ConnectionManager accepts the socket and registers it; when it fails
    nothing is registered and the endpoint ends there, before its [try]. *)
Definition websocket_endpoint (oc oready : outcome) : session :=
  let fresh st reg :=
    {| phase_of := Active; ping_task := st; process_task := st;
       buffer := AdaptiveBuffer_new; registered := reg;
       trace := [EvConnect oc] |} in
  match oc with
  | Raises e => set_phase (Closed (Some e)) (fresh NotStarted false)
  | Returns => in_try (manager_send_json ready_msg oready) (fresh Running true)
  end.

(** What the scheduler runs next: a heartbeat turn, the processing of
    the next window, or a turn of the receive loop. *)
Inductive action :=
  | Tick (o : outcome)
  | Window (n : nat) (o : outcome)
  | Receive (i : inbound) (o : outcome).

Definition step (a : action) (s : session) : session :=
  match a with
  | Tick o =>
      match ping_task s with Running => _heartbeat o s | _ => s end
  | Window n o =>
      match process_task s with Running => _process_audio n o s | _ => s end
  | Receive i o =>
      match phase_of s with Active => in_try (receive_body i o) s | _ => s end
  end.

Definition run (acts : list action) (s : session) : session :=
  foldl (fun s a => step a s) s acts.

(** The messages handed to the transport, in order. *)
Definition sent (tr : list sevent) : list json :=
  omap (fun e => match e with EvSend _ m _ => Some m | _ => None end) tr.

Definition count_kind (k : msg_kind) (ms : list json) : nat :=
  length (List.filter (fun m => bool_decide (kind_of m = Some k)) ms).

End Endpoint.

(** Stage [st] was run in a session, in whatever context. *)
Definition ran (st : stage) (tr : list sevent) : Prop :=
  ∃ c ok, EvCall c st ok ∈ tr.

(** The exception a malformed inbound message raises in the receive
    loop: a frame that is not JSON, or an envelope [WSMessage] refuses. *)
Definition rejection `{!Streaming Features} (i : inbound) : option exn :=
  match i with
  | BadFrame => Some JSONDecodeError
  | Frame v =>
      match WSMessage_init v with
      | Raise e => Some e
      | Ok _ => None
      end
  | _ => None
  end.

(** The buffer calls that returned: the inbound messages accepted. *)
Definition accepted (tr : list sevent) : nat :=
  length (List.filter
            (fun e => match e with EvAdd _ true => true | _ => false end) tr).

(** The heartbeat ticks: the sleeps of the fixed interval that elapsed. *)
Definition ticks (tr : list sevent) : nat :=
  length (List.filter
            (fun e => match e with EvSleep _ => true | _ => false end) tr).

(** The windows processed: the suggestions that returned. *)
Definition processed (tr : list sevent) : nat :=
  length (List.filter
            (fun e => match e with EvCall _ Suggest true => true | _ => false end)
            tr).

(** What leaving the [try] block adds to the trace. *)
Definition teardown (e : exn) : list sevent :=
  (if decide (e = WebSocketDisconnect)
   then [EvLog "websocket disconnected"] else [])
  ++ [EvCancel PingTask; EvCancel ProcessTask; EvDisconnect].

(** Every sleep in the trace is one of ten seconds. *)
Definition fixed_interval (tr : list sevent) : Prop :=
  ∀ secs, EvSleep secs ∈ tr → secs = 10%nat.

(** The state of a session that has left its receive loop. *)
Definition torn_down (s : session) : Prop :=
  ping_task s ≠ Running ∧ process_task s ≠ Running ∧ registered s = false ∧
  [EvCancel PingTask; EvCancel ProcessTask; EvDisconnect] `suffix_of` trace s.

(** The four shapes of an outbound message. *)
Definition outbound_shape (m : json) : Prop :=
  m = ready_msg ∨ m = ack_msg ∨ m = ping_msg ∨ ∃ cs, m = chords_msg cs.

(** A stretch of trace with the messages the specification lists and no
    other: each message has one of the four shapes, none is a second
    ready message, the acknowledgments are as many as the accepted
    messages, the pings as many as the ticks, the chord messages as many
    as the windows processed. *)
Definition balanced (d : list sevent) : Prop :=
  Forall outbound_shape (sent d) ∧
  count_kind KReady (sent d) = 0%nat ∧
  count_kind KAck (sent d) = accepted d ∧
  count_kind KPing (sent d) = ticks d ∧
  count_kind KChords (sent d) = processed d ∧
  fixed_interval d.

(** ** A concrete deployment

    Deterministic stand-ins for the collaborators, to run the service on
    explicit inputs. *)
Module Demo.

(** Audio is the path's code points, features are the audio, two chords
    are suggested whatever the features, the accompaniment repeats the
    chords. *)
Definition collab : Collaborators bytes bytes :=
  {| load_audio := fun p => Ok (py p);
     extract_mfcc := fun a => Ok a;
     denoise := fun f => Ok f;
     suggest := fun _ => Ok ["C"; "G"];
     generate := fun cs => Ok (cs ++ cs) |}.

(** The same deployment with an accompaniment generator that fails. *)
Definition collab_no_generator : Collaborators bytes bytes :=
  {| load_audio := fun p => Ok (py p);
     extract_mfcc := fun a => Ok a;
     denoise := fun f => Ok f;
     suggest := fun _ => Ok ["C"; "G"];
     generate := fun _ => Raise (CollaboratorFailure Generate) |}.

(** The same deployment with a suggester that fails. *)
Definition collab_no_suggester : Collaborators bytes bytes :=
  {| load_audio := fun p => Ok (py p);
     extract_mfcc := fun a => Ok a;
     denoise := fun f => Ok f;
     suggest := fun _ => Raise (CollaboratorFailure Suggest);
     generate := fun cs => Ok (cs ++ cs) |}.

(** The features are their own fingerprint. *)
Definition digest : Fingerprint bytes bytes := fun f => f.

(** A validator that takes JSON strings only, a ceiling of 64 bytes,
    windows that are their bytes. *)
Definition streaming : Streaming bytes :=
  {| str_validator := fun v => match v with JStr s => Some s | _ => None end;
     ceiling := 64%nat;
     window_features := fun w => w |}.

Definition cache : Cache bytes (option (gmap bytes Chords)) :=
  @RedisCache bytes bytes _ _ digest.

Definition request : ChordRequest := {| file_path := "song.wav" |}.

(** A cache that is up and empty, and a cache that is out. *)
Definition up : World (option (gmap bytes Chords)) :=
  {| cache_st := Some ∅; log := [] |}.

(** The envelope [{"data": "AAAA"}]. *)
Definition envelope : json := JObj [("data", JStr (py "AAAA"))].

(** A session that connected and sent its ready message. *)
Definition opened : session :=
  websocket_endpoint Returns Returns.

(** The session of the scenario: the envelope is received, then the
    buffer emits a window of its four bytes. *)
Definition streamed : session :=
  @run _ _ collab streaming
    [Receive (Frame envelope) Returns; Window 4 Returns] opened.

End Demo.

(** ** The shape of a step

    What each action can do to a session, with the state it leaves
    written out; the facts on whole runs are read off these cases. *)

(** A task after [cancel()]. *)
Definition stop (t : task_state) : task_state :=
  match t with Running => Cancelled | _ => t end.

(** The session that [leave_try] leaves. *)
Definition left_with (e : exn) (s : session) : session :=
  {| phase_of := Closed (if decide (e = WebSocketDisconnect)
                         then None else Some e);
     ping_task := stop (ping_task s);
     process_task := stop (process_task s);
     buffer := buffer s;
     registered := false;
     trace := trace s ++ teardown e |}.

Section StepShape.
Context {Audio Features : Type}.
Context `{!Collaborators Audio Features} `{!Streaming Features}.

(** What a turn of the receive loop did before its exception: nothing,
    a buffer call that raised, or a buffer call that returned followed by
    an acknowledgment whose send raised. *)
Inductive turn_cut (s : session) (e : exn)
  : list sevent → AdaptiveBuffer → Prop :=
  | cut_early : turn_cut s e [] (buffer s)
  | cut_add chunk :
      AdaptiveBuffer_add chunk (buffer s) = Raise e →
      turn_cut s e [EvAdd chunk false] (buffer s)
  | cut_ack chunk b :
      AdaptiveBuffer_add chunk (buffer s) = Ok b →
      turn_cut s e [EvAdd chunk true; EvSend ViaManager ack_msg (Raises e)] b.

Inductive step_shape (s : session) : action → session → Prop :=
  | shape_idle a :
      step_shape s a s
  | shape_tick o :
      ping_task s = Running →
      step_shape s (Tick o)
        {| phase_of := phase_of s;
           ping_task := match o with
                        | Returns => Running
                        | Raises e => Crashed e
                        end;
           process_task := process_task s;
           buffer := buffer s;
           registered := registered s;
           trace := trace s ++ [EvSleep 10; EvSend ViaSocket ping_msg o] |}
  | shape_window n o w b cs :
      process_task s = Running →
      AdaptiveBuffer_next n (buffer s) = Some (w, b) →
      suggest (window_features w) = Ok cs →
      step_shape s (Window n o)
        {| phase_of := phase_of s;
           ping_task := ping_task s;
           process_task := match o with
                           | Returns => Running
                           | Raises e => Crashed e
                           end;
           buffer := b;
           registered := match o with
                         | Returns => registered s
                         | Raises _ => false
                         end;
           trace := trace s ++ [EvCall EventLoop Suggest true;
                                EvSend ViaManager (chords_msg cs) o] |}
  | shape_window_fails n o w b e :
      process_task s = Running →
      AdaptiveBuffer_next n (buffer s) = Some (w, b) →
      suggest (window_features w) = Raise e →
      step_shape s (Window n o)
        {| phase_of := phase_of s;
           ping_task := ping_task s;
           process_task := Crashed e;
           buffer := b;
           registered := registered s;
           trace := trace s ++ [EvCall EventLoop Suggest false] |}
  | shape_accept i chunk b :
      phase_of s = Active →
      AdaptiveBuffer_add chunk (buffer s) = Ok b →
      step_shape s (Receive i Returns)
        {| phase_of := Active;
           ping_task := ping_task s;
           process_task := process_task s;
           buffer := b;
           registered := registered s;
           trace := trace s ++ [EvAdd chunk true;
                                EvSend ViaManager ack_msg Returns] |}
  | shape_leave i o e pre b :
      phase_of s = Active →
      turn_cut s e pre b →
      step_shape s (Receive i o)
        {| phase_of := Closed (if decide (e = WebSocketDisconnect)
                               then None else Some e);
           ping_task := stop (ping_task s);
           process_task := stop (process_task s);
           buffer := b;
           registered := false;
           trace := trace s ++ pre ++ teardown e |}.

End StepShape.

(** Whether the endpoint is in its receive loop. *)
Definition is_active (p : phase) : bool :=
  match p with Active => true | Closed _ => false end.

(** The events of the three streams of a session. *)
Definition is_add (e : sevent) : bool :=
  match e with EvAdd _ true => true | _ => false end.

Definition is_sleep (e : sevent) : bool :=
  match e with EvSleep _ => true | _ => false end.

Definition is_suggested (e : sevent) : bool :=
  match e with EvCall _ Suggest true => true | _ => false end.

Definition sends_kind (k : msg_kind) (e : sevent) : bool :=
  match e with
  | EvSend _ m _ => bool_decide (kind_of m = Some k)
  | _ => false
  end.

(** Reading a trace as one stream of requests [a] and answers [b]: the
    two must alternate, a request first.  [waiting] tells whether a
    request has no answer yet; the result is [None] when an answer comes
    with no request waiting, or a request while one is waiting. *)
Fixpoint scan (a b : sevent → bool) (waiting : bool) (tr : list sevent)
  : option bool :=
  match tr with
  | [] => Some waiting
  | e :: rest =>
      if a e then (if waiting then None else scan a b true rest)
      else if b e then (if waiting then scan a b false rest else None)
      else scan a b waiting rest
  end.

(** How often an event of a kind occurs. *)
Definition count_ev (p : sevent → bool) (tr : list sevent) : nat :=
  length (List.filter p tr).

Definition is_disconnect (e : sevent) : bool :=
  match e with EvDisconnect => true | _ => false end.

Definition is_cancel (t : task_id) (e : sevent) : bool :=
  match e, t with
  | EvCancel PingTask, PingTask | EvCancel ProcessTask, ProcessTask => true
  | _, _ => false
  end.


Definition is_disconnect_log (e : sevent) : bool :=
  match e with
  | EvLog msg => bool_decide (msg = "websocket disconnected")
  | _ => false
  end.

(** The events a task makes: the heartbeat sleeps and sends on the
    socket, the processing task calls the suggester and sends chords. *)
Definition task_event (t : task_id) (e : sevent) : bool :=
  match t, e with
  | PingTask, EvSleep _ | PingTask, EvSend ViaSocket _ _ => true
  | ProcessTask, EvCall _ _ _ => true
  | ProcessTask, EvSend ViaManager m _ => bool_decide (kind_of m = Some KChords)
  | _, _ => false
  end.

(** The channel each message takes: pings on the socket, the others
    through the manager. *)
Definition channel_ok (e : sevent) : Prop :=
  match e with
  | EvSend ViaSocket m _ => m = ping_msg
  | EvSend ViaManager m _ =>
      m = ready_msg ∨ m = ack_msg ∨ ∃ cs, m = chords_msg cs
  | _ => True
  end.

(** A Unicode scalar value: a code point that is not a surrogate. *)
Definition scalar (c : Z) : Prop :=
  0 ≤ c < 1114112 ∧ ¬ (55296 ≤ c ≤ 57343).

(** ** Application state and lifecycle *)

(** The objects kept on [app.state]. *)
Inductive pyobj :=
  | PNone
  | PPool (h : nat)             (* an asyncpg pool *)
  | PRedis (h : nat)            (* a redis client *)
  | PManager (redis : pyobj)    (* ConnectionManager(redis) *)
  | PCache (redis : pyobj).     (* RedisCache(redis) *)

(** Truth value of an object: [None] is false, the others are true. *)
Definition truthy (o : pyobj) : bool :=
  match o with PNone => false | _ => true end.

(** What the lifecycle hooks do to the world outside. *)
Inductive app_event :=
  | Warned (msg : string) (e : exn)    (* logger.warning(msg, exc_info=e) *)
  | ObjClosed (o : pyobj)                (* await o.close() *)
  | PoolDisconnected (o : pyobj).      (* await o.connection_pool.disconnect() *)

(** The application: the attributes of [app.state] and what was done. *)
Record App := { attrs : gmap string pyobj; journal : list app_event }.

(** A hook of the application: it returns, or an attribute is missing
    ([None]: AttributeError). *)
Definition AppM (A : Type) : Type := App → option A * App.

Global Instance appm_ret : MRet AppM := λ A a app, (Some a, app).
Global Instance appm_bind : MBind AppM := λ A B k m app,
  match m app with
  | (Some a, app') => k a app'
  | (None, app') => (None, app')
  end.

(** [app.state.name]. *)
Definition getattr (name : string) : AppM pyobj :=
  λ app, (attrs app !! name, app).

(** [getattr(app.state, name, d)]. *)
Definition getattr_default (name : string) (d : pyobj) : AppM pyobj :=
  λ app, (Some (default d (attrs app !! name)), app).

(** [app.state.name = v]. *)
Definition setattr (name : string) (v : pyobj) : AppM unit :=
  λ app, (Some tt, {| attrs := <[name := v]> (attrs app);
                      journal := journal app |}).

Definition note (ev : app_event) : AppM unit :=
  λ app, (Some tt, {| attrs := attrs app; journal := journal app ++ [ev] |}).

(** What the services outside do at start-up. *)
Record Backends := {
  create_pool : res nat;        (* await asyncpg.create_pool(...) *)
  redis_module : bool;          (* the import of lines 29-32 succeeded *)
  redis_from_url : res nat;     (* redis.from_url(...) *)
  redis_ping : outcome          (* await app.state.redis.ping() *)
}.

(** [startup], lines 85-106. *)
Definition startup (b : Backends) : AppM unit :=
  match create_pool b with
  | Ok h => setattr "db_pool" (PPool h)
  | Raise e => note (Warned "db connection failed" e);;
               setattr "db_pool" PNone
  end;;
  (if redis_module b then
     match redis_from_url b with
     | Ok h =>
         setattr "redis" (PRedis h);;
         match redis_ping b with
         | Returns => mret tt
         | Raises e => note (Warned "redis connection failed" e);;
                       setattr "redis" PNone
         end
     | Raise e => note (Warned "redis connection failed" e);;
                  setattr "redis" PNone
     end
   else setattr "redis" PNone);;
  redis ← getattr "redis";
  setattr "manager" (PManager redis);;
  redis ← getattr "redis";
  setattr "cache" (PCache redis).

(** [shutdown], lines 109-115. *)
Definition shutdown (module : bool) : AppM unit :=
  pool ← getattr "db_pool";
  (if truthy pool
   then pool ← getattr "db_pool"; note (ObjClosed pool)
   else mret tt);;
  redis ← (if module then getattr_default "redis" PNone else mret PNone);
  if truthy redis
  then (redis ← getattr "redis"; note (ObjClosed redis));;
       redis ← getattr "redis"; note (PoolDisconnected redis)
  else mret tt.

(** The dependencies, lines 118-131. *)
Definition get_db : AppM pyobj := getattr "db_pool".
Definition get_redis : AppM pyobj := getattr_default "redis" PNone.
Definition get_manager : AppM pyobj := getattr "manager".
Definition get_cache : AppM pyobj := getattr "cache".

(** The redis client that start-up leaves on the state. *)
Definition redis_of (b : Backends) : pyobj :=
  if redis_module b then
    match redis_from_url b, redis_ping b with
    | Ok h, Returns => PRedis h
    | _, _ => PNone
    end
  else PNone.

(** The warnings start-up logs: one for a database that cannot be
    reached, one for a redis that cannot. *)
Definition startup_warnings (b : Backends) : list app_event :=
  match create_pool b with
  | Ok _ => []
  | Raise e => [Warned "db connection failed" e]
  end
  ++ (if redis_module b then
        match redis_from_url b, redis_ping b with
        | Ok _, Returns => []
        | Ok _, Raises e | Raise e, _ => [Warned "redis connection failed" e]
        end
      else []).

(** What shutdown closes after a start-up: the pool when there is one,
    the redis client and its connection pool when there is one. *)
Definition shutdown_closes (b : Backends) : list app_event :=
  match create_pool b with
  | Ok h => [ObjClosed (PPool h)]
  | Raise _ => []
  end
  ++ match redis_of b with
     | PNone => []
     | client => [ObjClosed client; PoolDisconnected client]
     end.

(** ** The profiling middleware *)

(** The headers of a Starlette response, as its [MutableHeaders] keeps
    them in [raw]: a list of names and values, the names in lower case;
    a name can be there more than once.  Starlette is a library of the
    application: what follows is its behaviour on names, which compare
    without regard to case. *)
Definition Headers := list (string * string).

(** [str.lower()] on a character of Latin-1, which is what a header name
    is encoded in: the letters A to Z, and those from 192 to 222 but the
    multiplication sign. *)
Definition lower_char (c : Ascii.ascii) : Ascii.ascii :=
  let n := Ascii.nat_of_ascii c in
  if ((65 <=? n)%nat && (n <=? 90)%nat)
     || ((192 <=? n)%nat && (n <=? 222)%nat && negb (n =? 215)%nat)
  then Ascii.ascii_of_nat (n + 32) else c.

Fixpoint lower (s : string) : string :=
  match s with
  | EmptyString => EmptyString
  | String c rest => String (lower_char c) (lower rest)
  end.

(** The first value under a name of [raw]. *)
Fixpoint lookup_raw (key : string) (raw : Headers) : option string :=
  match raw with
  | [] => None
  | (k, v) :: rest => if decide (k = key) then Some v else lookup_raw key rest
  end.

(** [headers[key]] and [headers.get(key)]. *)
Definition Headers_get (key : string) (raw : Headers) : option string :=
  lookup_raw (lower key) raw.

(** The entries of [raw] under a name, and the others. *)
Definition named (key : string) (raw : Headers) : Headers :=
  List.filter (λ kv, bool_decide (kv.1 = key)) raw.

Definition not_named (key : string) (raw : Headers) : Headers :=
  List.filter (λ kv, negb (bool_decide (kv.1 = key))) raw.

(** The first entry under [key] takes the value and the later ones go;
    with no entry under [key] one is appended. *)
Fixpoint set_raw (key value : string) (raw : Headers) : Headers :=
  match raw with
  | [] => [(key, value)]
  | (k, v) :: rest =>
      if decide (k = key)
      then (key, value) :: not_named key rest
      else (k, v) :: set_raw key value rest
  end.

(** [headers[key] = value] of [MutableHeaders]. *)
Definition MutableHeaders_setitem (key value : string) (raw : Headers)
  : Headers :=
  set_raw (lower key) value raw.

(** An HTTP response: status, body and headers. *)
Record Response := {
  status : nat;
  body : bytes;
  headers : Headers
}.

Section Profiling.
(** Readings of the clock of the event loop, their difference and its
    rendering as text. *)
Context {Clock : Type} (minus : Clock → Clock → Clock) (str : Clock → string).

(** The histogram [request_latency] and the log. *)
Record Telemetry := {
  observed : list Clock;
  logged : list (string * Clock)
}.

(** [profiling_middleware], lines 157-165: [handled] is what
    [call_next(request)] does, [finish] the clock when it has returned. *)
Definition profiling_middleware (path : string) (start : Clock)
    (handled : res Response) (finish : Clock) (t : Telemetry)
  : res Response * Telemetry :=
  match handled with
  | Raise e => (Raise e, t)
  | Ok response =>
      let duration := minus finish start in
      (Ok {| status := status response; body := body response;
             headers := MutableHeaders_setitem "X-Process-Time" (str duration)
                          (headers response) |},
       {| observed := observed t ++ [duration];
          logged := logged t ++ [(path, duration)] |})
  end.

(** A request as the middleware sees it. *)
Record Served := {
  srv_path : string;
  srv_start : Clock;
  srv_handled : res Response;
  srv_finish : Clock
}.

(** The duration the middleware measures for a request, when it does. *)
Definition measured (r : Served) : option (string * Clock) :=
  match srv_handled r with
  | Ok _ => Some (srv_path r, minus (srv_finish r) (srv_start r))
  | Raise _ => None
  end.

(** The middleware over the requests of a server, one after the other. *)
Definition profile_all (reqs : list Served) (t : Telemetry) : Telemetry :=
  foldl (λ t r, (profiling_middleware (srv_path r) (srv_start r)
                   (srv_handled r) (srv_finish r) t).2) t reqs.

End Profiling.

(** ** The failure of a unit *)

Section UnitFailures.
Context {Audio Features CacheSt : Type}.
Context `{!Collaborators Audio Features} `{!Cache Features CacheSt}.

(** The first call that fails along a unit of work, and its error: the
    decoder on the path of the request, or a later collaborator on what
    the ones before it returned; the suggester only after a lookup that
    missed, the generator on the chords cached or suggested. *)
Definition first_failure (req : ChordRequest) (w : World CacheSt) (e : exn)
  : Prop :=
  load_audio (file_path req) = Raise e ∨
  ∃ a, load_audio (file_path req) = Ok a ∧
    (extract_mfcc a = Raise e ∨
     ∃ f, extract_mfcc a = Ok f ∧
       (denoise f = Raise e ∨
        ∃ f', denoise f = Ok f' ∧
          ((∃ cs, (get_chords f' (cache_st w)).1 = Ok (Some cs) ∧
                  generate cs = Raise e) ∨
           ((get_chords f' (cache_st w)).1 = Ok None ∧
            (suggest f' = Raise e ∨
             ∃ cs, suggest f' = Ok cs ∧ generate cs = Raise e))))).

End UnitFailures.

(** ** The outbound messages of a session, as a machine of its own

    What a session is to send, read off the list of the specification
    (an acknowledgment per accepted inbound message, a ping on each
    heartbeat tick, chords per processed window) over no more than what
    is alive in the session and what its buffer holds. *)

Definition is_running (t : task_state) : bool :=
  match t with Running => true | _ => false end.

Definition returns (o : outcome) : bool :=
  match o with Returns => true | Raises _ => false end.

(** What is alive in a session, and its buffer. *)
Record view := {
  heartbeat_alive : bool;
  processing_alive : bool;
  receiving : bool;
  backlog : AdaptiveBuffer
}.

Definition view_of (s : session) : view :=
  {| heartbeat_alive := is_running (ping_task s);
     processing_alive := is_running (process_task s);
     receiving := is_active (phase_of s);
     backlog := buffer s |}.

(** A session after its ready message: all alive when the message went
    out, all stopped when its send failed. *)
Definition start_view (oready : outcome) : view :=
  {| heartbeat_alive := returns oready;
     processing_alive := returns oready;
     receiving := returns oready;
     backlog := AdaptiveBuffer_new |}.

(** A session whose receive loop ended, on buffer [b]. *)
Definition ended (b : AdaptiveBuffer) : view :=
  {| heartbeat_alive := false; processing_alive := false;
     receiving := false; backlog := b |}.

Section Expected.
Context {Audio Features : Type}.
Context `{!Collaborators Audio Features} `{!Streaming Features}.

(** An inbound message is accepted when it is a frame of JSON that makes
    a [WSMessage] whose payload has an encoding the buffer takes; the
    result is the buffer with the chunk in it. *)
Definition accepted_into (i : inbound) (b : AdaptiveBuffer)
  : option AdaptiveBuffer :=
  match i with
  | Frame v =>
      match WSMessage_init v with
      | Ok msg =>
          match utf8 (data msg) with
          | Some chunk =>
              match AdaptiveBuffer_add chunk b with
              | Ok b' => Some b'
              | Raise _ => None
              end
          | None => None
          end
      | Raise _ => None
      end
  | _ => None
  end.

(** The messages an action brings about, and the session after it. *)
Definition expected_step (a : action) (v : view) : list json * view :=
  match a with
  | Tick o =>
      if heartbeat_alive v
      then ([ping_msg],
            {| heartbeat_alive := returns o;
               processing_alive := processing_alive v;
               receiving := receiving v; backlog := backlog v |})
      else ([], v)
  | Window n o =>
      if processing_alive v
      then match AdaptiveBuffer_next n (backlog v) with
           | Some (w, b) =>
               match suggest (window_features w) with
               | Ok cs =>
                   ([chords_msg cs],
                    {| heartbeat_alive := heartbeat_alive v;
                       processing_alive := returns o;
                       receiving := receiving v; backlog := b |})
               | Raise _ =>
                   ([],
                    {| heartbeat_alive := heartbeat_alive v;
                       processing_alive := false;
                       receiving := receiving v; backlog := b |})
               end
           | None => ([], v)
           end
      else ([], v)
  | Receive i o =>
      if receiving v
      then match accepted_into i (backlog v) with
           | Some b =>
               ([ack_msg],
                if returns o
                then {| heartbeat_alive := heartbeat_alive v;
                        processing_alive := processing_alive v;
                        receiving := true; backlog := b |}
                else ended b)
           | None => ([], ended (backlog v))
           end
      else ([], v)
  end.

(** The messages a run of actions brings about. *)
Fixpoint expected (acts : list action) (v : view) : list json :=
  match acts with
  | [] => []
  | a :: rest =>
      (expected_step a v).1 ++ expected rest (expected_step a v).2
  end.

End Expected.

(** * Theorems *)

(** ** The request/response pipeline *)

Ltac unfold_coro :=
  unfold call, suggest_chords, await, run_in_threadpool, cache_get_chords,
    cache_set_chords, on_cache, emit, modify, lift, ret,
    mbind, mret, coro_bind, coro_ret, bind in *.

(** Two equations on one call: make them one. *)
Ltac chase :=
  repeat match goal with
         | H1 : ?x = _, H2 : ?x = _ |- _ => rewrite H1 in H2; simplify_eq/=
         end.

(** Membership in an explicit list, and its refutation. *)
Ltac mem := by repeat (apply elem_of_cons; first [by left|right]).
Ltac not_mem H :=
  repeat (apply elem_of_cons in H as [?|H]; [done|]); by apply elem_of_nil in H.

Lemma new_events_app {CacheSt} (w w' : World CacheSt) evs :
  log w' = log w ++ evs → new_events w w' = evs.
Proof.
  intros E. unfold new_events. rewrite E. by rewrite drop_app_length.
Qed.

Section MusicServiceFacts.
Context {Audio Features CacheSt : Type}.
Context `{!Collaborators Audio Features} `{!Cache Features CacheSt}.

Implicit Types (req : ChordRequest) (w : World CacheSt).

Lemma call_cases req w : call_spec req w (call req w).1 (call req w).2.
Proof.
  unfold_coro. simpl.
  destruct (load_audio (file_path req)) as [a|e] eqn:E1; simpl;
    [|by eapply call_decode_fails].
  destruct (extract_mfcc a) as [f|e] eqn:E2; simpl;
    [|rewrite <-(assoc_L (++)); by eapply call_extract_fails].
  destruct (denoise f) as [f'|e] eqn:E3; simpl;
    [|rewrite <-!(assoc_L (++)); by eapply call_denoise_fails].
  destruct (get_chords f' (cache_st w)) as [[[cs|]|e] c] eqn:E4; simpl;
    [| |rewrite <-!(assoc_L (++)); by eapply call_get_fails].
  - destruct (generate cs) as [acc|e] eqn:E5; simpl;
      rewrite <-!(assoc_L (++)); eapply call_hit; eauto; by rewrite E5.
  - destruct (suggest f') as [cs|e] eqn:E5; simpl;
      [|rewrite <-!(assoc_L (++)); by eapply call_suggest_fails].
    destruct (set_chords f' cs c) as [[[]|e] c'] eqn:E6; simpl;
      [|rewrite <-!(assoc_L (++)); by eapply call_set_fails].
    destruct (generate cs) as [acc|e] eqn:E7; simpl;
      rewrite <-!(assoc_L (++)); eapply call_miss; eauto; by rewrite E7.
Qed.

Lemma reliable_ok :
  reliable →
  (∀ p, ∃ a, load_audio p = Ok a) ∧ (∀ a, ∃ f, extract_mfcc a = Ok f) ∧
  (∀ f, ∃ f', denoise f = Ok f') ∧ (∀ f, ∃ cs, suggest f = Ok cs) ∧
  (∀ cs, ∃ acc, generate cs = Ok acc).
Proof.
  intros (H1 & H2 & H3 & H4 & H5). repeat split; intros x.
  - specialize (H1 x). destruct (load_audio x); naive_solver.
  - specialize (H2 x). destruct (extract_mfcc x); naive_solver.
  - specialize (H3 x). destruct (denoise x); naive_solver.
  - specialize (H4 x). destruct (suggest x); naive_solver.
  - specialize (H5 x). destruct (generate x); naive_solver.
Qed.

(** With collaborators and a cache that return, the call returns. *)
Lemma call_returns req w :
  reliable → cache_returns → is_ok (call req w).1 = true.
Proof.
  intros Hr [Hg Hs]. apply reliable_ok in Hr as (H1 & H2 & H3 & H4 & H5).
  destruct (call_cases req w) as
    [e E1|a e E1 E2|a f e E1 E2 E3|a f f' e c E1 E2 E3 E4
    |a f f' cs c r E1 E2 E3 E4 ->|a f f' c e E1 E2 E3 E4 E5
    |a f f' c cs e c' E1 E2 E3 E4 E5 E6|a f f' c cs c' r E1 E2 E3 E4 E5 E6 ->].
  - destruct (H1 (file_path req)); congruence.
  - destruct (H2 a); congruence.
  - destruct (H3 f); congruence.
  - specialize (Hg f' (cache_st w)). by rewrite E4 in Hg.
  - by destruct (H5 cs) as [acc ->].
  - destruct (H4 f'); congruence.
  - specialize (Hs f' cs c). by rewrite E6 in Hs.
  - by destruct (H5 cs) as [acc ->].
Qed.

(** Every CPU-bound stage of a request runs on the thread pool. *)
Lemma call_offloads req w :
  ∃ evs, log (call req w).2 = log w ++ evs ∧
    Forall (λ ev, cpu_bound (ev_stage ev) = true → ev_ctx ev = ThreadPool) evs.
Proof.
  destruct (call_cases req w); eexists; (split; [reflexivity|]);
    repeat constructor; simpl; congruence.
Qed.

(** C1: every call of the pipeline runs decode, feature extraction,
    denoise and the cache lookup in this order, then on a miss only the
    suggestion and the cache store, then the accompaniment generation: the
    stages a call went through are a prefix of that order (all of it when
    it returns), a hit leaves the suggestion and the store out, the
    response holds the chords (cached on a hit, suggested on a miss) with
    the accompaniment generated from them, and the call does return when
    its collaborators and the cache do.  The lookup and the store are
    calls on the cache itself: the store, when there is one, is
    [set_chords] on the denoised features and the chords just suggested,
    after a lookup of these features that missed, and the cache the call
    leaves is the one this store leaves; without a store it is the one
    the lookup leaves, and the cache is untouched before the lookup. *)
Theorem call_steps_in_order req w :
  ∃ (hit : bool) (evs : list call_event),
    log (call req w).2 = log w ++ evs ∧
    stages_of evs `prefix_of` spec_order hit ∧
    (∀ a f f' cs c,
       load_audio (file_path req) = Ok a → extract_mfcc a = Ok f →
       denoise f = Ok f' → get_chords f' (cache_st w) = (Ok cs, c) →
       hit = bool_decide (is_Some cs)) ∧
    (∀ resp, (call req w).1 = Ok resp →
       stages_of evs = spec_order hit ∧
       generate (chords resp) = Ok (accompaniment resp) ∧
       ∃ a f f' c,
         load_audio (file_path req) = Ok a ∧ extract_mfcc a = Ok f ∧
         denoise f = Ok f' ∧
         get_chords f' (cache_st w)
         = (Ok (if hit then Some (chords resp) else None), c) ∧
         (hit = false → suggest f' = Ok (chords resp)) ∧
         (hit = false → (set_chords f' (chords resp) c).1 = Ok tt) ∧
         cache_st (call req w).2
         = (if hit then c else (set_chords f' (chords resp) c).2)) ∧
    (CacheSet ∈ stages_of evs →
     ∃ a f f' c cs,
       load_audio (file_path req) = Ok a ∧ extract_mfcc a = Ok f ∧
       denoise f = Ok f' ∧ get_chords f' (cache_st w) = (Ok None, c) ∧
       suggest f' = Ok cs ∧
       cache_st (call req w).2 = (set_chords f' cs c).2) ∧
    (CacheSet ∉ stages_of evs → CacheGet ∈ stages_of evs →
     ∃ a f f',
       load_audio (file_path req) = Ok a ∧ extract_mfcc a = Ok f ∧
       denoise f = Ok f' ∧
       cache_st (call req w).2 = (get_chords f' (cache_st w)).2) ∧
    (CacheGet ∉ stages_of evs → cache_st (call req w).2 = cache_st w) ∧
    (reliable → cache_returns → is_ok (call req w).1 = true).
Proof.
  pose proof (call_returns req w) as Hret.
  destruct (call_cases req w) as
    [e E1|a e E1 E2|a f e E1 E2 E3|a f f' e c E1 E2 E3 E4
    |a f f' cs c r E1 E2 E3 E4 ->|a f f' c e E1 E2 E3 E4 E5
    |a f f' c cs e c' E1 E2 E3 E4 E5 E6|a f f' c cs c' r E1 E2 E3 E4 E5 E6 ->].
  1-4: exists true.
  5: exists true.
  6-8: exists false.
  all: eexists; split; [reflexivity|]; split; [by eexists|].
  all: split; [intros; chase; by try congruence|].
  all: simpl.
  (* before the lookup *)
  1-3: split; [done|]; split; [intros Hin; not_mem Hin|];
       split; [intros _ Hin; not_mem Hin|]; by split.
  (* a lookup that raises *)
  - split; [done|]. split; [intros Hin; not_mem Hin|].
    split; [intros _ _; exists a, f, f'; by rewrite E4|].
    split; [intros Hnot; destruct Hnot; mem|done].
  (* a hit *)
  - split.
    { intros resp Hresp.
      destruct (generate cs) as [acc|] eqn:E5; simplify_eq/=.
      repeat split; [done|]. exists a, f, f', c. by rewrite E4. }
    split; [intros Hin; not_mem Hin|].
    split; [intros _ _; exists a, f, f'; by rewrite E4|].
    split; [intros Hnot; destruct Hnot; mem|done].
  (* a miss and a suggestion that raises *)
  - split; [done|]. split; [intros Hin; not_mem Hin|].
    split; [intros _ _; exists a, f, f'; by rewrite E4|].
    split; [intros Hnot; destruct Hnot; mem|done].
  (* a store that raises *)
  - split; [done|].
    split; [intros _; exists a, f, f', c, cs; by rewrite E6|].
    split; [intros Hnot; destruct Hnot; mem|].
    split; [intros Hnot; destruct Hnot; mem|done].
  (* a miss, a suggestion and a store *)
  - split.
    { intros resp Hresp.
      destruct (generate cs) as [acc|] eqn:E7; simplify_eq/=.
      repeat split; [done|]. exists a, f, f', c. by rewrite E4, E6. }
    split; [intros _; exists a, f, f', c, cs; by rewrite E6|].
    split; [intros Hnot; destruct Hnot; mem|].
    split; [intros Hnot; destruct Hnot; mem|done].
Qed.

End MusicServiceFacts.

(** ** The pipeline over RedisCache *)

Section RedisFacts.
Context {Audio Features Key : Type} `{Countable Key}.
Context `{!Collaborators Audio Features} `{!Fingerprint Features Key}.

Implicit Types (req : ChordRequest) (w : World (option (gmap Key Chords))).

Lemma redis_returns : cache_returns (Features := Features).
Proof. split; intros; simpl; by destruct c. Qed.

Lemma redis_get_keeps (f : Features) (redis : option (gmap Key Chords)) r c :
  get_chords f redis = (r, c) → c = redis.
Proof. destruct redis; simpl; congruence. Qed.

(** A key that expired is a miss. *)
Lemma expire_redis_miss (f : Features) (redis : option (gmap Key Chords)) :
  (get_chords f (expire_redis (fingerprint f) redis)).1 = Ok None.
Proof. destruct redis; simpl; [|done]. by rewrite lookup_delete_eq. Qed.

(** What was set is what is read, while the backend is up and keeps it. *)
Lemma redis_read_your_write (f : Features) cs (entries : gmap Key Chords) :
  (get_chords f (set_chords f cs (Some entries)).2).1 = Ok (Some cs).
Proof. simpl. by rewrite lookup_insert_eq. Qed.


(** The running call on a miss. *)
Lemma call_on_miss req w a f f' cs c :
  load_audio (file_path req) = Ok a → extract_mfcc a = Ok f →
  denoise f = Ok f' → get_chords f' (cache_st w) = (Ok None, cache_st w) →
  suggest f' = Ok cs → set_chords f' cs (cache_st w) = (Ok tt, c) →
  (call req w).1
  = match generate cs with
    | Ok acc => Ok {| chords := cs; accompaniment := acc |}
    | Raise e => Raise e
    end ∧
  cache_st (call req w).2 = c ∧
  stages_of (new_events w (call req w).2) = spec_order false.
Proof.
  intros E1 E2 E3 E4 E5 E6.
  destruct (call_cases req w); chase; try congruence.
  split; [done|]. split; [done|]. by erewrite new_events_app by done.
Qed.

(** C6: during an outage of the cache backend no error of the cache
    reaches the caller: the lookup is a miss, the store does nothing and
    returns, and the call produces the chords of the suggester and their
    accompaniment, through all seven steps of the compute path. *)
Theorem outage_still_computes req (l : list call_event) :
  let w := {| cache_st := None; log := l |} in
  (∀ f : Features, get_chords f None = (Ok None, None)) ∧
  (∀ (f : Features) cs, set_chords f cs None = (Ok tt, None)) ∧
  (∀ a f f' cs acc,
     load_audio (file_path req) = Ok a → extract_mfcc a = Ok f →
     denoise f = Ok f' → suggest f' = Ok cs → generate cs = Ok acc →
     (call req w).1 = Ok {| chords := cs; accompaniment := acc |} ∧
     cache_st (call req w).2 = None ∧
     stages_of (new_events w (call req w).2) = spec_order false) ∧
  (reliable → is_ok (call req w).1 = true).
Proof.
  intros w. split; [done|]. split; [done|]. split.
  - intros a f f' cs acc E1 E2 E3 E4 E5.
    destruct (call_on_miss req w a f f' cs None) as (-> & -> & ->); try done.
    by rewrite E5.
  - intros Hr. apply call_returns; [done|apply redis_returns].
Qed.


(** A unit that fails reports the failure of the collaborator; the cache
    is as it was, unless the suggestion had returned and been stored. *)
Lemma call_failure req w e :
  (call req w).1 = Raise e →
  raised_by req e ∧
  (cache_st (call req w).2 = cache_st w ∨
   ∃ f cs, suggest f = Ok cs ∧ generate cs = Raise e ∧
           cache_st (call req w).2 = (set_chords f cs (cache_st w)).2).
Proof.
  intros Hres. unfold raised_by.
  destruct (call_cases req w) as
    [e' E1|a e' E1 E2|a f e' E1 E2 E3|a f f' e' c E1 E2 E3 E4
    |a f f' cs c r E1 E2 E3 E4 ->|a f f' c e' E1 E2 E3 E4 E5
    |a f f' c cs e' c' E1 E2 E3 E4 E5 E6|a f f' c cs c' r E1 E2 E3 E4 E5 E6 ->];
    simplify_eq/=.
  - naive_solver.
  - naive_solver.
  - naive_solver.
  - by destruct (cache_st w).
  - destruct (generate cs) eqn:E5; simplify_eq.
    split; [naive_solver|]. left. by rewrite (redis_get_keeps _ _ _ _ E4).
  - split; [naive_solver|]. left. by rewrite (redis_get_keeps _ _ _ _ E4).
  - by destruct c.
  - destruct (generate cs) eqn:E7; simplify_eq.
    split; [naive_solver|]. right. exists f', cs.
    pose proof (redis_get_keeps _ _ _ _ E4) as ->.
    by rewrite E6.
Qed.

End RedisFacts.

(** ** The websocket session *)

Ltac unfold_session :=
  unfold receive_body, process_body, heartbeat_body, buffer_add,
    suggester_suggest, manager_send_json, ws_send_json, asyncio_sleep,
    receive_json, res_of, modify, lift, ret,
    mbind, mret, coro_bind, coro_ret, bind in *.

Section EndpointFacts.
Context {Audio Features : Type}.
Context `{!Collaborators Audio Features} `{!Streaming Features}.

Implicit Types (s : session) (e : exn) (o : outcome) (i : inbound).

(** *** Leaving the receive loop *)

Lemma finally_block_trace s :
  trace (finally_block s)
  = trace s ++ [EvCancel PingTask; EvCancel ProcessTask; EvDisconnect].
Proof.
  unfold finally_block, manager_disconnect, cancel. simpl.
  repeat case_match; simpl; by rewrite <-!(assoc_L (++)).
Qed.

Lemma finally_block_stops s :
  ping_task (finally_block s) ≠ Running ∧
  process_task (finally_block s) ≠ Running ∧
  registered (finally_block s) = false ∧
  buffer (finally_block s) = buffer s.
Proof.
  unfold finally_block, manager_disconnect, cancel. simpl.
  repeat case_match; simpl in *; repeat split; congruence.
Qed.

Lemma leave_try_trace e s :
  trace (leave_try e s) = trace s ++ teardown e.
Proof.
  unfold leave_try, teardown, set_phase. case_decide; cbn [trace];
    rewrite finally_block_trace; simpl; by rewrite <-?(assoc_L (++)).
Qed.

Lemma leave_try_closes e s :
  phase_of (leave_try e s)
  = Closed (if decide (e = WebSocketDisconnect) then None else Some e) ∧
  ping_task (leave_try e s) ≠ Running ∧
  process_task (leave_try e s) ≠ Running ∧
  registered (leave_try e s) = false ∧
  buffer (leave_try e s) = buffer s.
Proof.
  unfold leave_try, set_phase.
  case_decide; cbn [phase_of ping_task process_task registered buffer];
    (split; [done|]).
  - apply (finally_block_stops (record _ s)).
  - apply finally_block_stops.
Qed.

Lemma leave_try_buffer e s : buffer (leave_try e s) = buffer s.
Proof. apply leave_try_closes. Qed.

Lemma sent_app (d1 d2 : list sevent) : sent (d1 ++ d2) = sent d1 ++ sent d2.
Proof. unfold sent. apply omap_app. Qed.

Lemma sent_teardown e : sent (teardown e) = [].
Proof. unfold teardown. by case_decide. Qed.

(** *** One turn of the receive loop *)

(** A turn of the receive loop, case by case on the inbound message. *)
Lemma receive_turn i o s :
  in_try (receive_body i o) s =
  match i with
  | PeerClosed => leave_try WebSocketDisconnect s
  | SocketError => leave_try TransportError s
  | BadFrame => leave_try JSONDecodeError s
  | Frame v =>
      match WSMessage_init v with
      | Raise e => leave_try e s
      | Ok msg =>
          match utf8 (data msg) with
          | None => leave_try UnicodeEncodeError s
          | Some chunk =>
              match AdaptiveBuffer_add chunk (buffer s) with
              | Raise e => leave_try e (record (EvAdd chunk false) s)
              | Ok b =>
                  let s' := mark_dead o
                              (record (EvSend ViaManager ack_msg o)
                                 (set_buffer b (record (EvAdd chunk true) s))) in
                  match o with
                  | Returns => s'
                  | Raises e => leave_try e s'
                  end
              end
          end
      end
  end.
Proof.
  unfold in_try. unfold_session. unfold encode.
  destruct i as [v| | |]; simpl; try done.
  destruct (WSMessage_init v) as [msg|e]; simpl; [|done].
  destruct (utf8 (data msg)) as [chunk|]; simpl; [|done].
  destruct (AdaptiveBuffer_add chunk (buffer s)) as [b|e]; simpl; [|done].
  by destruct o.
Qed.

Lemma rejection_turn i o s e :
  rejection i = Some e → in_try (receive_body i o) s = leave_try e s.
Proof.
  rewrite receive_turn. unfold rejection.
  destruct i as [v| | |]; try done; [|congruence].
  destruct (WSMessage_init v); congruence.
Qed.

(** *** The two tasks *)

Lemma heartbeat_turn o s :
  _heartbeat o s =
  let s' := record (EvSend ViaSocket ping_msg o) (record (EvSleep 10) s) in
  match o with
  | Returns => s'
  | Raises e => set_task PingTask (Crashed e) s'
  end.
Proof. unfold _heartbeat. unfold_session. by destruct o. Qed.

Lemma process_turn n o s w b :
  AdaptiveBuffer_next n (buffer s) = Some (w, b) →
  _process_audio n o s =
  let s1 := record (EvCall EventLoop Suggest (is_ok (suggest (window_features w))))
              (set_buffer b s) in
  match suggest (window_features w) with
  | Raise e => set_task ProcessTask (Crashed e) s1
  | Ok cs =>
      let s2 := mark_dead o (record (EvSend ViaManager (chords_msg cs) o) s1) in
      match o with
      | Returns => s2
      | Raises e => set_task ProcessTask (Crashed e) s2
      end
  end.
Proof.
  intros E. unfold _process_audio. rewrite E. unfold_session.
  destruct (suggest (window_features w)); simpl; [|done]. by destruct o.
Qed.

Lemma AdaptiveBuffer_next_closed n (b b' : AdaptiveBuffer) w :
  AdaptiveBuffer_next n b = Some (w, b') → closed b' = closed b.
Proof.
  unfold AdaptiveBuffer_next. destruct (decide _); intros E; by simplify_eq.
Qed.

Lemma AdaptiveBuffer_add_closed chunk (b b' : AdaptiveBuffer) :
  AdaptiveBuffer_add chunk b = Ok b' →
  closed b' = closed b ∧ pending b' = pending b ++ chunk.
Proof.
  unfold AdaptiveBuffer_add. destruct (decide _); intros E; by simplify_eq.
Qed.

Lemma AdaptiveBuffer_close_closed (b : AdaptiveBuffer) :
  closed (AdaptiveBuffer_close b) = true ∧
  pending (AdaptiveBuffer_close b) = pending b.
Proof. done. Qed.

(** *** Steps of a session *)

Lemma balanced_nil : balanced [].
Proof. repeat split; try done. intros secs Hin. by apply elem_of_nil in Hin. Qed.

Lemma count_kind_app k (l1 l2 : list json) :
  count_kind k (l1 ++ l2) = (count_kind k l1 + count_kind k l2)%nat.
Proof. unfold count_kind. by rewrite List.filter_app, length_app. Qed.

Lemma balanced_app (d1 d2 : list sevent) :
  balanced d1 → balanced d2 → balanced (d1 ++ d2).
Proof.
  unfold balanced, accepted, ticks, processed, fixed_interval.
  intros (A1 & A2 & A3 & A4 & A5 & A6) (B1 & B2 & B3 & B4 & B5 & B6).
  rewrite sent_app, !count_kind_app, !List.filter_app, !length_app.
  repeat split; try lia.
  - by apply Forall_app.
  - intros secs [Hin|Hin]%elem_of_app; eauto.
Qed.

(** Balance of an explicit stretch of trace, by running the counters. *)
Ltac balance :=
  unfold teardown;
  repeat match goal with
         | |- context [decide (?e = WebSocketDisconnect)] =>
             destruct (decide (e = WebSocketDisconnect))
         end;
  repeat split; simpl;
  try match goal with
      | |- Forall _ _ =>
          repeat (apply List.Forall_cons;
                  [unfold outbound_shape;
                   first [by left|by (right; left)|by (right; right; left)
                         |by (right; right; right; eexists)]|]);
          apply List.Forall_nil
      | |- fixed_interval _ =>
          let Hin := fresh in
          intros ? Hin;
          repeat (apply elem_of_cons in Hin as [?|Hin]; [by simplify_eq|]);
          by apply elem_of_nil in Hin
      end;
  try done.

(** A session that left its receive loop does not move. *)
Lemma step_closed (a : action) s :
  phase_of s ≠ Active → ping_task s ≠ Running → process_task s ≠ Running →
  step a s = s.
Proof.
  intros Hp Hping Hproc. destruct a; simpl.
  - by destruct (ping_task s).
  - by destruct (process_task s).
  - by destruct (phase_of s).
Qed.

Lemma run_closed (acts : list action) s :
  phase_of s ≠ Active → ping_task s ≠ Running → process_task s ≠ Running →
  run acts s = s.
Proof.
  intros Hp Hping Hproc. induction acts as [|a acts IH]; [done|].
  unfold run in *. simpl. by rewrite step_closed.
Qed.

(** What a step does: it adds a balanced stretch to the trace and leaves
    the buffer open or closed as it was; then either the session keeps
    its phase and no task starts to run, or the step is the one that
    leaves the receive loop, through the [finally] clause. *)
Lemma step_summary (a : action) s :
  ∃ d, trace (step a s) = trace s ++ d ∧ balanced d ∧
    closed (buffer (step a s)) = closed (buffer s) ∧
    ((phase_of (step a s) = phase_of s ∧
      (registered (step a s) = true → registered s = true) ∧
      (ping_task (step a s) = Running → ping_task s = Running) ∧
      (process_task (step a s) = Running → process_task s = Running))
     ∨
     (phase_of s = Active ∧ phase_of (step a s) ≠ Active ∧
      ping_task (step a s) ≠ Running ∧ process_task (step a s) ≠ Running ∧
      registered (step a s) = false ∧
      [EvCancel PingTask; EvCancel ProcessTask; EvDisconnect] `suffix_of` d)).
Proof.
  assert (∀ s', s' = s →
    ∃ d, trace s' = trace s ++ d ∧ balanced d ∧
      closed (buffer s') = closed (buffer s) ∧
      ((phase_of s' = phase_of s ∧ (registered s' = true → registered s = true) ∧
        (ping_task s' = Running → ping_task s = Running) ∧
        (process_task s' = Running → process_task s = Running)) ∨
       (phase_of s = Active ∧ phase_of s' ≠ Active ∧
        ping_task s' ≠ Running ∧ process_task s' ≠ Running ∧
        registered s' = false ∧
        [EvCancel PingTask; EvCancel ProcessTask; EvDisconnect] `suffix_of` d)))
    as Hsame.
  { intros s' ->. exists []. rewrite (right_id_L [] (++)).
    split; [done|]. split; [apply balanced_nil|]. split; [done|]. by left. }
  assert (∀ e s0 d0,
    phase_of s = Active → trace s0 = trace s ++ d0 → balanced d0 →
    closed (buffer s0) = closed (buffer s) →
    ∃ d, trace (leave_try e s0) = trace s ++ d ∧ balanced d ∧
      closed (buffer (leave_try e s0)) = closed (buffer s) ∧
      ((phase_of (leave_try e s0) = phase_of s ∧
        (registered (leave_try e s0) = true → registered s = true) ∧
        (ping_task (leave_try e s0) = Running → ping_task s = Running) ∧
        (process_task (leave_try e s0) = Running → process_task s = Running)) ∨
       (phase_of s = Active ∧ phase_of (leave_try e s0) ≠ Active ∧
        ping_task (leave_try e s0) ≠ Running ∧
        process_task (leave_try e s0) ≠ Running ∧
        registered (leave_try e s0) = false ∧
        [EvCancel PingTask; EvCancel ProcessTask; EvDisconnect] `suffix_of` d)))
    as Hleave.
  { intros e s0 d0 Hact Htr Hbal Hcl.
    destruct (leave_try_closes e s0) as (Hp & H1 & H2 & H3 & H4).
    exists (d0 ++ teardown e). rewrite leave_try_trace, Htr, (assoc_L (++)).
    split; [done|]. split; [apply balanced_app; [done|balance]|].
    split; [by rewrite H4|]. right. rewrite Hp. repeat split; try done.
    apply suffix_app_r. unfold teardown. by eexists. }
  destruct a as [o|n o|i o]; simpl.
  - destruct (ping_task s) eqn:Hping; try by apply Hsame.
    rewrite heartbeat_turn. simpl.
    exists [EvSleep 10; EvSend ViaSocket ping_msg o].
    destruct o; simpl; rewrite <-!(assoc_L (++)); simpl;
      (split; [done|]); (split; [balance|]); (split; [done|]); left;
      repeat split; done.
  - destruct (process_task s) eqn:Hproc; try by apply Hsame.
    destruct (AdaptiveBuffer_next n (buffer s)) as [[w b]|] eqn:Hnext;
      [|unfold _process_audio; rewrite Hnext; by apply Hsame].
    rewrite (process_turn _ _ _ _ _ Hnext). simpl.
    pose proof (AdaptiveBuffer_next_closed _ _ _ _ Hnext) as Hcl.
    destruct (suggest (window_features w)) as [cs|e]; simpl.
    + exists [EvCall EventLoop Suggest true; EvSend ViaManager (chords_msg cs) o].
      destruct o; simpl; rewrite <-!(assoc_L (++)); simpl;
        (split; [done|]); (split; [balance|]); (split; [done|]); left;
        repeat split; done.
    + exists [EvCall EventLoop Suggest false]. simpl.
      (split; [done|]); (split; [balance|]); (split; [done|]); left;
        repeat split; done.
  - destruct (phase_of s) eqn:Hact; try by apply Hsame.
    rewrite receive_turn.
    assert (trace s = trace s ++ []) as Hnil by by rewrite (right_id_L [] (++)).
    destruct i as [v| | |];
      try (eapply Hleave; [done|exact Hnil|apply balanced_nil|done]).
    destruct (WSMessage_init v) as [msg|e];
      [|eapply Hleave; [done|exact Hnil|apply balanced_nil|done]].
    destruct (utf8 (data msg)) as [chunk|];
      [|eapply Hleave; [done|exact Hnil|apply balanced_nil|done]].
    destruct (AdaptiveBuffer_add chunk (buffer s)) as [b|e] eqn:Hadd.
    + apply AdaptiveBuffer_add_closed in Hadd as [Hcl _].
      destruct o as [|e]; simpl.
      * exists [EvAdd chunk true; EvSend ViaManager ack_msg Returns].
        rewrite <-!(assoc_L (++)); simpl.
        (split; [done|]); (split; [balance|]); (split; [done|]); left.
        by rewrite Hact.
      * eapply (Hleave _ _ [EvAdd chunk true; EvSend ViaManager ack_msg (Raises e)]);
          [done| |balance|done].
        simpl. by rewrite <-!(assoc_L (++)).
    + eapply (Hleave _ _ [EvAdd chunk false]); [done|done|balance|done].
Qed.

(** The run of a session, one step after the other. *)
Lemma run_snoc (acts : list action) (a : action) s :
  run (acts ++ [a]) s = step a (run acts s).
Proof. unfold run. by rewrite foldl_app. Qed.

Lemma run_trace (acts : list action) s :
  ∃ d, trace (run acts s) = trace s ++ d ∧ balanced d.
Proof.
  induction acts as [|a acts IH] using rev_ind.
  - exists []. split; [by rewrite (right_id_L [] (++))|apply balanced_nil].
  - destruct IH as (d & Hd & Hbal). rewrite run_snoc.
    destruct (step_summary a (run acts s)) as (d' & Hd' & Hbal' & _).
    exists (d ++ d'). rewrite Hd', Hd, (assoc_L (++)).
    split; [done|by apply balanced_app].
Qed.

Lemma run_torn_down (acts : list action) s :
  closed (buffer s) = false → (phase_of s ≠ Active → torn_down s) →
  closed (buffer (run acts s)) = false ∧
  (phase_of (run acts s) ≠ Active → torn_down (run acts s)).
Proof.
  intros Hcl Hdown. induction acts as [|a acts [IH1 IH2]] using rev_ind; [done|].
  rewrite run_snoc.
  destruct (step_summary a (run acts s)) as (d & Hd & _ & Hcl' & Hcase).
  split; [by rewrite Hcl'|]. intros Hp.
  destruct Hcase as [(Hphase & Hreg & Hping & Hproc)|(_ & _ & H1 & H2 & H3 & H4)].
  - rewrite Hphase in Hp. destruct (IH2 Hp) as (T1 & T2 & T3 & T4).
    rewrite step_closed by done. done.
  - repeat split; try done. rewrite Hd. by apply suffix_app_r.
Qed.

(** *** The claims on the streaming path *)

Lemma rejection_not_disconnect i e :
  rejection i = Some e → e ≠ WebSocketDisconnect.
Proof.
  unfold rejection, WSMessage_init. intros Hrej ->.
  repeat case_match; simplify_eq.
Qed.

(** C2, as the code has it: a malformed inbound message (a frame that is
    not JSON, or an envelope that [WSMessage] refuses) adds no byte to the
    AdaptiveBuffer and is not acknowledged, and it ends the session: its
    exception leaves the receive loop, the heartbeat and processing tasks
    are cancelled, the manager disconnects the socket, and the exception
    leaves the endpoint. *)
Theorem malformed_message_ends_session s i o e :
  phase_of s = Active → rejection i = Some e →
  buffer (step (Receive i o) s) = buffer s ∧
  sent (trace (step (Receive i o) s)) = sent (trace s) ∧
  trace (step (Receive i o) s)
  = trace s ++ [EvCancel PingTask; EvCancel ProcessTask; EvDisconnect] ∧
  phase_of (step (Receive i o) s) = Closed (Some e) ∧
  ping_task (step (Receive i o) s) ≠ Running ∧
  process_task (step (Receive i o) s) ≠ Running ∧
  registered (step (Receive i o) s) = false.
Proof.
  intros Hact Hrej. simpl. rewrite Hact, (rejection_turn _ _ _ _ Hrej).
  pose proof (rejection_not_disconnect _ _ Hrej) as Hne.
  destruct (leave_try_closes e s) as (Hp & H1 & H2 & H3 & H4).
  rewrite leave_try_trace, sent_app, sent_teardown, (right_id_L [] (++)).
  unfold teardown. rewrite Hp. by rewrite !decide_False by done.
Qed.

(** C3, as the code has it: for a window the buffer emits, the processing
    task calls the suggester on its features, in line, and when the
    suggester returns sends the chords through the manager; it runs no
    other stage of the pipeline, neither denoising nor the cache. *)
Theorem window_gets_suggestion_only s n o w b :
  process_task s = Running →
  AdaptiveBuffer_next n (buffer s) = Some (w, b) →
  trace (step (Window n o) s)
  = trace s
    ++ EvCall EventLoop Suggest (is_ok (suggest (window_features w)))
       :: match suggest (window_features w) with
          | Ok cs => [EvSend ViaManager (chords_msg cs) o]
          | Raise _ => []
          end.
Proof.
  intros Hrun Hnext. simpl. rewrite Hrun, (process_turn _ _ _ _ _ Hnext). simpl.
  destruct (suggest (window_features w)); simpl; [|done].
  destruct o; simpl; by rewrite <-(assoc_L (++)).
Qed.

(** C7 on the streaming path: the suggestion for a window, a CPU-bound
    stage, is called on the event loop, not on the thread pool. *)
Theorem stream_suggestion_runs_inline s n o w b :
  process_task s = Running →
  AdaptiveBuffer_next n (buffer s) = Some (w, b) →
  cpu_bound Suggest = true ∧
  EvCall EventLoop Suggest (is_ok (suggest (window_features w)))
    ∈ trace (step (Window n o) s) ∧
  ∀ ok, EvCall ThreadPool Suggest ok ∉ drop (length (trace s))
                                          (trace (step (Window n o) s)).
Proof.
  intros Hrun Hnext. split; [done|].
  simpl. rewrite Hrun, (process_turn _ _ _ _ _ Hnext). simpl.
  destruct (suggest (window_features w)); simpl; [destruct o; simpl|];
    rewrite <-?(assoc_L (++)), drop_app_length;
    (split; [apply elem_of_app; right; apply elem_of_cons; by left|]);
    intros ok Hin;
    repeat (apply elem_of_cons in Hin as [?|Hin]; [done|]);
    by apply elem_of_nil in Hin.
Qed.

(** C4, as the code has it: the endpoint never closes the AdaptiveBuffer;
    once the endpoint has left its receive loop, for a disconnect or for
    any exception, neither the heartbeat nor the processing task runs and
    the manager was told to disconnect, the two cancellations and the
    disconnect being the last three moves of the session. *)
Theorem session_teardown oc oready (acts : list action) :
  closed (buffer (run acts (websocket_endpoint oc oready))) = false ∧
  (phase_of (run acts (websocket_endpoint oc oready)) ≠ Active →
   ping_task (run acts (websocket_endpoint oc oready)) ≠ Running ∧
   process_task (run acts (websocket_endpoint oc oready)) ≠ Running ∧
   registered (run acts (websocket_endpoint oc oready)) = false ∧
   (oc = Returns →
    [EvCancel PingTask; EvCancel ProcessTask; EvDisconnect]
      `suffix_of` trace (run acts (websocket_endpoint oc oready)))).
Proof.
  destruct oc as [|e].
  - destruct (run_torn_down acts (websocket_endpoint Returns oready))
      as [Hcl Hdown].
    + unfold websocket_endpoint, in_try. unfold_session. simpl.
      destruct oready; simpl; [done|].
      by rewrite leave_try_buffer.
    + unfold websocket_endpoint, in_try. unfold_session. simpl.
      destruct oready; simpl; [done|]. intros _.
      match goal with |- torn_down (leave_try ?e ?s0) =>
        destruct (leave_try_closes e s0) as (_ & H1 & H2 & H3 & _);
        repeat split; try done; rewrite leave_try_trace
      end.
      apply suffix_app_r. unfold teardown. by eexists.
    + split; [done|]. intros Hp. by destruct (Hdown Hp) as (? & ? & ? & ?).
  - rewrite run_closed by done. simpl. repeat split; done.
Qed.

(** *** The session against the machine of its outbound messages *)

Lemma view_of_leave_try e s :
  view_of (leave_try e s) = ended (buffer s).
Proof.
  destruct (leave_try_closes e s) as (Hp & H1 & H2 & _ & Hb).
  unfold view_of, ended. rewrite Hp, Hb. simpl.
  destruct (ping_task (leave_try e s)), (process_task (leave_try e s));
    done.
Qed.

Lemma sent_leave_try e s : sent (trace (leave_try e s)) = sent (trace s).
Proof.
  by rewrite leave_try_trace, sent_app, sent_teardown, (right_id_L [] (++)).
Qed.

Ltac tidy_sent :=
  repeat (progress (rewrite ?sent_app, ?sent_leave_try, ?view_of_leave_try,
                      <-?(assoc_L (++)), ?(right_id_L [] (++)); simpl)).

Lemma expected_step_sound a s :
  sent (trace (step a s))
  = sent (trace s) ++ (expected_step a (view_of s)).1 ∧
  view_of (step a s) = (expected_step a (view_of s)).2.
Proof.
  destruct a as [o|n o|i o]; simpl.
  - destruct (ping_task s) eqn:Hp; simpl; tidy_sent; try done.
    rewrite heartbeat_turn. unfold view_of.
    destruct o; simpl; rewrite ?Hp; tidy_sent; rewrite ?Hp; done.
  - destruct (process_task s) eqn:Hp; simpl; tidy_sent; try done.
    destruct (AdaptiveBuffer_next n (buffer s)) as [[w b]|] eqn:Hn.
    + rewrite (process_turn _ _ _ _ _ Hn). unfold view_of.
      destruct (suggest (window_features w)); simpl;
        [destruct o; simpl|]; tidy_sent; rewrite ?Hp; done.
    + unfold _process_audio. rewrite Hn. simpl. tidy_sent.
      unfold view_of. by rewrite Hp.
  - destruct (phase_of s) eqn:Hp; simpl; tidy_sent; try done.
    rewrite receive_turn.
    pose proof sent_leave_try as SL. pose proof view_of_leave_try as VL.
    set (leave := leave_try) in *. clearbody leave.
    destruct i as [v| | |]; simpl; rewrite ?SL, ?VL; tidy_sent; try done.
    destruct (WSMessage_init v) as [msg|e]; simpl; rewrite ?SL, ?VL;
      tidy_sent; try done.
    destruct (utf8 (data msg)) as [chunk|]; simpl; rewrite ?SL, ?VL;
      tidy_sent; try done.
    destruct (AdaptiveBuffer_add chunk (buffer s)) as [b|e]; simpl;
      rewrite ?SL, ?VL; tidy_sent; try done.
    destruct o; simpl; rewrite ?SL, ?VL; tidy_sent;
      unfold view_of; simpl; rewrite ?Hp; done.
Qed.

Lemma expected_sound acts s :
  sent (trace (run acts s)) = sent (trace s) ++ expected acts (view_of s).
Proof.
  revert s. induction acts as [|a acts IH]; intros s; simpl.
  - by rewrite (right_id_L [] (++)).
  - destruct (expected_step_sound a s) as [Hs Hv].
    change (run (a :: acts) s) with (run acts (step a s)).
    rewrite IH, Hs, Hv. by rewrite <-(assoc_L (++)).
Qed.

Lemma view_of_endpoint oready :
  view_of (websocket_endpoint Returns oready) = start_view oready ∧
  sent (trace (websocket_endpoint Returns oready)) = [ready_msg].
Proof.
  unfold websocket_endpoint, in_try. unfold_session. simpl.
  destruct oready; simpl; [done|].
  by rewrite view_of_leave_try, sent_leave_try.
Qed.

(** C9: in a session that connected, the messages handed to the
    transport are exactly the ready message followed by what the actions
    of the session bring about, in their order: a ping for each tick of a
    heartbeat that is alive, an acknowledgment for each inbound message
    accepted while the receive loop runs, a chord message for each window
    the processing task took and the suggester processed, and nothing
    else; the heartbeat, the processing task and the receive loop are all
    alive once the ready message went out.  Hence the messages are of the
    four shapes only; the first is the ready message, sent once; there is
    one acknowledgment per inbound message accepted into the buffer, one
    ping per heartbeat tick, each tick a sleep of ten seconds, and one
    chord message per window the suggester processed. *)
Theorem outbound_messages oready (acts : list action) :
  sent (trace (run acts (websocket_endpoint Returns oready)))
  = ready_msg :: expected acts (start_view oready) ∧
  view_of (websocket_endpoint Returns oready) = start_view oready ∧
  Forall outbound_shape
    (sent (trace (run acts (websocket_endpoint Returns oready)))) ∧
  head (sent (trace (run acts (websocket_endpoint Returns oready))))
  = Some ready_msg ∧
  count_kind KReady (sent (trace (run acts (websocket_endpoint Returns oready))))
  = 1%nat ∧
  count_kind KAck (sent (trace (run acts (websocket_endpoint Returns oready))))
  = accepted (trace (run acts (websocket_endpoint Returns oready))) ∧
  count_kind KPing (sent (trace (run acts (websocket_endpoint Returns oready))))
  = ticks (trace (run acts (websocket_endpoint Returns oready))) ∧
  fixed_interval (trace (run acts (websocket_endpoint Returns oready))) ∧
  count_kind KChords (sent (trace (run acts (websocket_endpoint Returns oready))))
  = processed (trace (run acts (websocket_endpoint Returns oready))).
Proof.
  split.
  { rewrite expected_sound.
    destruct (view_of_endpoint oready) as [-> ->]. done. }
  split; [apply view_of_endpoint|].
  destruct (run_trace acts (websocket_endpoint Returns oready))
    as (d & -> & Hbal).
  assert (∃ d0, trace (websocket_endpoint Returns oready)
                = [EvConnect Returns; EvSend ViaManager ready_msg oready] ++ d0
                ∧ balanced d0) as (d0 & -> & Hbal0).
  { unfold websocket_endpoint, in_try. unfold_session. simpl.
    destruct oready as [|e]; simpl.
    - exists []. split; [done|apply balanced_nil].
    - exists (teardown e). rewrite leave_try_trace. split; [done|balance]. }
  rewrite <-(assoc_L (++)).
  pose proof (balanced_app _ _ Hbal0 Hbal) as (B1 & B2 & B3 & B4 & B5 & B6).
  rewrite sent_app. simpl sent. simpl head.
  rewrite !count_kind_app.
  change (count_kind KReady [ready_msg]) with 1%nat.
  change (count_kind KAck [ready_msg]) with 0%nat.
  change (count_kind KPing [ready_msg]) with 0%nat.
  change (count_kind KChords [ready_msg]) with 0%nat.
  rewrite B2, B3, B4, B5. repeat split; try done.
  - constructor; [by left|done].
  - intros secs Hin. apply B6.
    apply elem_of_app in Hin as [Hin|Hin]; [|done].
    repeat (apply elem_of_cons in Hin as [?|Hin]; [done|]).
    by apply elem_of_nil in Hin.
Qed.

(** The encoder on one code point of each length, and on a surrogate. *)
Example utf8_samples :
  utf8 [65] = Some [65] ∧ utf8 [233] = Some [195; 169] ∧
  utf8 [8364] = Some [226; 130; 172] ∧
  utf8 [128512] = Some [240; 159; 152; 128] ∧
  utf8 [55296] = None ∧ encode [65; 55296] = Raise UnicodeEncodeError.
Proof. repeat split; reflexivity. Qed.

(** Fields the model does not declare do not count, and of two [data]
    fields the later is the one kept. *)
Example dict_get_samples :
  dict_get "data" [("seq", JNum 7); ("data", JStr (py "A"))]
  = Some (JStr (py "A")) ∧
  dict_get "data" [("data", JNum 1); ("data", JStr (py "A"))]
  = Some (JStr (py "A")) ∧
  dict_get "data" [("seq", JNum 7)] = None.
Proof. repeat split; reflexivity. Qed.


End EndpointFacts.

(** ** Failure of a collaborator *)

Section UnitFailure.
Context {Audio Features Key : Type} `{Countable Key}.
Context `{!Collaborators Audio Features} `{!Fingerprint Features Key}.
Context `{!Streaming Features}.

(** C5, as the code has it: a unit of work in which a collaborator fails
    aborts with the error of that collaborator.  The cache store comes
    after the suggestion has returned: a failure of the decoder, of the
    feature extraction, of the denoiser or of the suggester, and a
    failure of the accompaniment generator after a hit, leave the cache
    as it was; a failure of the accompaniment generator after a miss
    leaves the cache as the store left it, with the chords suggested at
    the fingerprint of the features when the backend is up.  A unit
    aborts for no other reason.  On the streaming path a suggestion that
    fails ends the processing task with that error and sends nothing;
    the receive loop, the heartbeat and the registration with the manager
    are as they were. *)
Theorem failed_unit_aborts :
  (∀ req (w : World (option (gmap Key Chords))) e,
     (load_audio (file_path req) = Raise e →
      (call req w).1 = Raise e ∧ cache_st (call req w).2 = cache_st w) ∧
     (∀ a, load_audio (file_path req) = Ok a →
           extract_mfcc a = Raise e →
           (call req w).1 = Raise e ∧ cache_st (call req w).2 = cache_st w) ∧
     (∀ a f, load_audio (file_path req) = Ok a → extract_mfcc a = Ok f →
             denoise f = Raise e →
             (call req w).1 = Raise e ∧
             cache_st (call req w).2 = cache_st w) ∧
     (∀ a f f', load_audio (file_path req) = Ok a → extract_mfcc a = Ok f →
                denoise f = Ok f' →
                (get_chords f' (cache_st w)).1 = Ok None →
                suggest f' = Raise e →
                (call req w).1 = Raise e ∧
                cache_st (call req w).2 = cache_st w) ∧
     (∀ a f f' cs, load_audio (file_path req) = Ok a → extract_mfcc a = Ok f →
                   denoise f = Ok f' →
                   (get_chords f' (cache_st w)).1 = Ok (Some cs) →
                   generate cs = Raise e →
                   (call req w).1 = Raise e ∧
                   cache_st (call req w).2 = cache_st w) ∧
     (∀ a f f' cs, load_audio (file_path req) = Ok a → extract_mfcc a = Ok f →
                   denoise f = Ok f' →
                   (get_chords f' (cache_st w)).1 = Ok None →
                   suggest f' = Ok cs → generate cs = Raise e →
                   (call req w).1 = Raise e ∧
                   cache_st (call req w).2
                   = (set_chords f' cs (cache_st w)).2 ∧
                   ∀ entries, cache_st w = Some entries →
                     cache_st (call req w).2
                     = Some (<[fingerprint f' := cs]> entries)) ∧
     ((call req w).1 = Raise e → first_failure req w e)) ∧
  (∀ (s : session) n o wd b e,
     process_task s = Running →
     AdaptiveBuffer_next n (buffer s) = Some (wd, b) →
     suggest (window_features wd) = Raise e →
     process_task (step (Window n o) s) = Crashed e ∧
     phase_of (step (Window n o) s) = phase_of s ∧
     ping_task (step (Window n o) s) = ping_task s ∧
     registered (step (Window n o) s) = registered s ∧
     sent (trace (step (Window n o) s)) = sent (trace s)).
Proof.
  split.
  - intros req w e.
    repeat split; try (intros entries Hw).
    1-13: destruct (call_cases req w) as
      [e' E1|a' e' E1 E2|a' f0 e' E1 E2 E3|a' f0 f0' e' c0 E1 E2 E3 E4
      |a' f0 f0' cs0 c0 r0 E1 E2 E3 E4 ->|a' f0 f0' c0 e' E1 E2 E3 E4 E5
      |a' f0 f0' c0 cs0 e' c0' E1 E2 E3 E4 E5 E6
      |a' f0 f0' c0 cs0 c0' r0 E1 E2 E3 E4 E5 E6 ->];
      chase; try congruence;
      try (pose proof (redis_get_keeps _ _ _ _ E4) as ->);
      repeat match goal with
             | E : ?g = (_, _), H : context [?g] |- _ =>
                 rewrite E in H; simpl in H; simplify_eq
             end;
      chase; try congruence;
      try (destruct (cache_st w); simpl in *; congruence);
      rewrite ?E6; try done;
      match goal with H : generate _ = Raise _ |- _ => by rewrite H end.
    intros Hres. unfold first_failure.
    destruct (call_cases req w) as
      [e' E1|a' e' E1 E2|a' f0 e' E1 E2 E3|a' f0 f0' e' c0 E1 E2 E3 E4
      |a' f0 f0' cs0 c0 r0 E1 E2 E3 E4 ->|a' f0 f0' c0 e' E1 E2 E3 E4 E5
      |a' f0 f0' c0 cs0 e' c0' E1 E2 E3 E4 E5 E6
      |a' f0 f0' c0 cs0 c0' r0 E1 E2 E3 E4 E5 E6 ->]; simplify_eq/=.
    + by left.
    + right. exists a'. split; [done|]. by left.
    + right. exists a'. split; [done|]. right. exists f0. split; [done|].
      by left.
    + by destruct (cache_st w).
    + destruct (generate cs0) eqn:E5; simplify_eq.
      right. exists a'. split; [done|]. right. exists f0. split; [done|].
      right. exists f0'. split; [done|]. left. exists cs0. by rewrite E4.
    + right. exists a'. split; [done|]. right. exists f0. split; [done|].
      right. exists f0'. split; [done|]. right. rewrite E4. split; [done|].
      by left.
    + by destruct c0.
    + destruct (generate cs0) eqn:E7; simplify_eq.
      right. exists a'. split; [done|]. right. exists f0. split; [done|].
      right. exists f0'. split; [done|]. right. rewrite E4. split; [done|].
      right. by exists cs0.
  - intros s n o wd b e Hrun Hnext Hfail. simpl.
    rewrite Hrun, (process_turn _ _ _ _ _ Hnext), Hfail. simpl.
    rewrite sent_app. simpl. by rewrite (right_id_L [] (++)).
Qed.

End UnitFailure.

(** ** The claims on the concrete deployment *)

(** On the demo: a first call, on an empty cache, goes through all
    seven steps and returns the suggested chords and their accompaniment. *)
Example call_demo :
  (@call _ _ _ Demo.collab Demo.cache Demo.request Demo.up).1
  = Ok {| chords := ["C"; "G"]; accompaniment := ["C"; "G"; "C"; "G"] |} ∧
  stages_of (log (@call _ _ _ Demo.collab Demo.cache Demo.request Demo.up).2)
  = spec_order false.
Proof.
  destruct (@call_on_miss _ _ _ _ _ Demo.collab Demo.digest Demo.request
              Demo.up (py "song.wav") (py "song.wav") (py "song.wav")
              ["C"; "G"] (Some {[ py "song.wav" := ["C"; "G"] ]}))
    as (R1 & _ & R2); try done.
Qed.

(** On the demo: the envelope [{}], which lacks [data], is refused by
    [WSMessage]; the session that was alive is closed by it, with the
    validation error leaving the endpoint and both tasks cancelled. *)
Lemma malformed_message_closes_session :
  @rejection _ Demo.streaming (Frame (JObj [])) = Some ValidationError ∧
  phase_of Demo.opened = Active ∧
  phase_of (@step _ _ Demo.collab Demo.streaming
              (Receive (Frame (JObj [])) Returns) Demo.opened)
  = Closed (Some ValidationError) ∧
  ping_task (@step _ _ Demo.collab Demo.streaming
               (Receive (Frame (JObj [])) Returns) Demo.opened)
  = Cancelled ∧
  ¬ phase_of (@step _ _ Demo.collab Demo.streaming
                (Receive (Frame (JObj [])) Returns) Demo.opened) = Active.
Proof. repeat split; try reflexivity. by vm_compute. Qed.

Lemma malformed_message_ends_session_witness :
  buffer (@step _ _ Demo.collab Demo.streaming
            (Receive (Frame (JObj [])) Returns) Demo.opened)
  = buffer Demo.opened ∧
  phase_of (@step _ _ Demo.collab Demo.streaming
              (Receive (Frame (JObj [])) Returns) Demo.opened)
  = Closed (Some ValidationError).
Proof.
  destruct (@malformed_message_ends_session _ _ Demo.collab Demo.streaming
              Demo.opened (Frame (JObj [])) Returns ValidationError)
    as (Hb & _ & _ & Hp & _); [reflexivity|reflexivity|].
  split; [exact Hb|exact Hp].
Defined.

Lemma streamed_trace :
  trace Demo.streamed
  = [EvConnect Returns; EvSend ViaManager ready_msg Returns;
     EvAdd [65; 65; 65; 65] true; EvSend ViaManager ack_msg Returns;
     EvCall EventLoop Suggest true;
     EvSend ViaManager (chords_msg ["C"; "G"]) Returns].
Proof. reflexivity. Qed.

(** On the demo: a window was emitted and its chords were sent, yet
    neither the denoiser nor the cache was called for it. *)
Lemma window_skips_denoise_and_cache :
  count_kind KChords (sent (trace Demo.streamed)) = 1%nat ∧
  ¬ (ran Denoise (trace Demo.streamed) ∧ ran CacheGet (trace Demo.streamed)).
Proof.
  split; [reflexivity|]. intros [(c & ok & Hin) _].
  rewrite streamed_trace in Hin.
  repeat (apply elem_of_cons in Hin as [?|Hin]; [done|]).
  by apply elem_of_nil in Hin.
Qed.

Lemma window_gets_suggestion_only_witness :
  trace (@step _ _ Demo.collab Demo.streaming (Window 4 Returns)
           (@step _ _ Demo.collab Demo.streaming
              (Receive (Frame Demo.envelope) Returns) Demo.opened))
  = trace (@step _ _ Demo.collab Demo.streaming
             (Receive (Frame Demo.envelope) Returns) Demo.opened)
    ++ [EvCall EventLoop Suggest true;
        EvSend ViaManager (chords_msg ["C"; "G"]) Returns].
Proof.
  apply (@window_gets_suggestion_only _ _ Demo.collab Demo.streaming
           _ 4%nat Returns [65; 65; 65; 65]
           {| pending := []; closed := false |}); reflexivity.
Defined.

(** On the demo: the suggestion of the streamed window ran on the event
    loop. *)
Lemma stream_suggestion_runs_inline_witness :
  EvCall EventLoop Suggest true ∈ trace Demo.streamed.
Proof.
  apply (@stream_suggestion_runs_inline _ _ Demo.collab Demo.streaming
           (@step _ _ Demo.collab Demo.streaming
              (Receive (Frame Demo.envelope) Returns) Demo.opened)
           4%nat Returns [65; 65; 65; 65]
           {| pending := []; closed := false |}); reflexivity.
Defined.

(** On the demo: after the peer closed the socket the session is over
    and its buffer is not closed; and a heartbeat whose send fails ends
    alone, with the processing task and the receive loop still running. *)
Lemma buffer_left_open :
  phase_of (@run _ _ Demo.collab Demo.streaming
              [Receive PeerClosed Returns] Demo.opened) = Closed None ∧
  ¬ closed (buffer (@run _ _ Demo.collab Demo.streaming
                      [Receive PeerClosed Returns] Demo.opened)) = true ∧
  ping_task (@run _ _ Demo.collab Demo.streaming
               [Tick (Raises TransportError)] Demo.opened)
  = Crashed TransportError ∧
  process_task (@run _ _ Demo.collab Demo.streaming
                  [Tick (Raises TransportError)] Demo.opened) = Running ∧
  phase_of (@run _ _ Demo.collab Demo.streaming
              [Tick (Raises TransportError)] Demo.opened) = Active.
Proof. repeat split; try reflexivity. by vm_compute. Qed.

(** On the demo, with an accompaniment generator that fails: the call
    misses, stores the suggested chords and then fails. *)
Lemma call_demo_no_generator :
  (@call _ _ _ Demo.collab_no_generator Demo.cache Demo.request Demo.up).1
  = Raise (CollaboratorFailure Generate) ∧
  cache_st
    (@call _ _ _ Demo.collab_no_generator Demo.cache Demo.request Demo.up).2
  = Some {[ py "song.wav" := ["C"; "G"] ]} ∧
  stages_of
    (log (@call _ _ _ Demo.collab_no_generator Demo.cache Demo.request
            Demo.up).2)
  = spec_order false.
Proof.
  destruct (@call_on_miss _ _ _ _ _ Demo.collab_no_generator Demo.digest
              Demo.request Demo.up (py "song.wav") (py "song.wav")
              (py "song.wav") ["C"; "G"]
              (Some {[ py "song.wav" := ["C"; "G"] ]}))
    as (R1 & R2 & R3); [done..|].
  split; [exact R1|]. split; [exact R2|exact R3].
Qed.

(** On the demo: with an accompaniment generator that fails, the unit
    aborts after its cache store, and the cache, empty before, holds the
    suggested chords. *)
Lemma generator_failure_leaves_entry :
  (@call _ _ _ Demo.collab_no_generator Demo.cache Demo.request Demo.up).1
  = Raise (CollaboratorFailure Generate) ∧
  CacheSet ∈ stages_of
    (log (@call _ _ _ Demo.collab_no_generator Demo.cache Demo.request
            Demo.up).2) ∧
  cache_st Demo.up = Some ∅ ∧
  ¬ cache_st
      (@call _ _ _ Demo.collab_no_generator Demo.cache Demo.request Demo.up).2
    = cache_st Demo.up.
Proof.
  destruct call_demo_no_generator as (R1 & R2 & R3).
  split; [exact R1|]. split.
  { rewrite R3. do 5 (apply elem_of_cons; right). apply elem_of_cons. by left. }
  split; [done|]. rewrite R2. by intros [= Heq].
Qed.

Lemma failed_unit_aborts_witness :
  ((@call _ _ _ Demo.collab_no_generator Demo.cache Demo.request Demo.up).1
   = Raise (CollaboratorFailure Generate) ∧
   cache_st
     (@call _ _ _ Demo.collab_no_generator Demo.cache Demo.request Demo.up).2
   = Some (<[py "song.wav" := ["C"; "G"]]> ∅)) ∧
  process_task (@step _ _ Demo.collab_no_suggester Demo.streaming
                  (Window 4 Returns)
                  (@step _ _ Demo.collab_no_suggester Demo.streaming
                     (Receive (Frame Demo.envelope) Returns) Demo.opened))
  = Crashed (CollaboratorFailure Suggest).
Proof.
  split.
  - destruct (proj1 (@failed_unit_aborts _ _ _ _ _ Demo.collab_no_generator
                       Demo.digest Demo.streaming)
                Demo.request Demo.up (CollaboratorFailure Generate))
      as (_ & _ & _ & _ & _ & Hgen & _).
    destruct (Hgen (py "song.wav") (py "song.wav") (py "song.wav") ["C"; "G"])
      as (R & _ & Rc); [reflexivity..|].
    split; [exact R|exact (Rc ∅ eq_refl)].
  - apply (proj2 (@failed_unit_aborts _ _ _ _ _ Demo.collab_no_suggester
                    Demo.digest Demo.streaming)
             _ 4%nat Returns [65; 65; 65; 65]
             {| pending := []; closed := false |}); reflexivity.
Defined.




(** ** Whole runs of a session *)

Section SessionRuns.
Context {Audio Features : Type}.
Context `{!Collaborators Audio Features} `{!Streaming Features}.

Implicit Types (s : session) (e : exn) (o : outcome) (i : inbound).
Implicit Types (a : action) (acts : list action).

Lemma leave_try_left_with e s : leave_try e s = left_with e s.
Proof.
  unfold leave_try, left_with, teardown.
  destruct s as [ph pt qt b r tr].
  destruct (decide (e = WebSocketDisconnect)); destruct pt, qt;
    unfold set_phase, finally_block, manager_disconnect, cancel; cbn;
    f_equal; by rewrite <-?(assoc_L (++)).
Qed.

Lemma step_shape_eq s a s1 s2 : s1 = s2 → step_shape s a s1 → step_shape s a s2.
Proof. by intros ->. Qed.

(** Every step has one of the shapes. *)
Lemma step_shaped a s : step_shape s a (step a s).
Proof.
  destruct a as [o|n o|i o]; simpl.
  - rewrite heartbeat_turn.
    destruct (ping_task s) eqn:Hping; try apply shape_idle.
    eapply step_shape_eq; [|by apply (shape_tick s o)].
    destruct o; unfold set_task, record; simpl; f_equal;
      by rewrite <-?(assoc_L (++)).
  - destruct (process_task s) eqn:Hproc; try apply shape_idle.
    destruct (AdaptiveBuffer_next n (buffer s)) as [[w b]|] eqn:Hnext;
      [|unfold _process_audio; rewrite Hnext; apply shape_idle].
    rewrite (process_turn _ _ _ _ _ Hnext).
    destruct (suggest (window_features w)) as [cs|e] eqn:Hs.
    + eapply step_shape_eq; [|by apply (shape_window s n o w b cs)].
      destruct o; unfold set_task, set_buffer, record; simpl; f_equal;
        by rewrite <-?(assoc_L (++)).
    + eapply step_shape_eq; [|by apply (shape_window_fails s n o w b e)].
      unfold set_task, set_buffer, record; simpl. by f_equal.
  - destruct (phase_of s) eqn:Hact; try apply shape_idle.
    rewrite receive_turn.
    assert (∀ e, step_shape s (Receive i o) (leave_try e s)) as Hearly.
    { intros e. rewrite leave_try_left_with.
      eapply step_shape_eq; [|by eapply (shape_leave s), cut_early].
      done. }
    destruct i as [v| | |]; try apply Hearly.
    destruct (WSMessage_init v) as [msg|e]; [|apply Hearly].
    destruct (utf8 (data msg)) as [chunk|]; [|apply Hearly].
    destruct (AdaptiveBuffer_add chunk (buffer s)) as [b|e] eqn:Hadd.
    + destruct o as [|e]; simpl.
      * eapply step_shape_eq; [|by apply (shape_accept s _ chunk b)].
        unfold set_buffer, record; simpl. rewrite Hact. f_equal.
        by rewrite <-?(assoc_L (++)).
      * rewrite leave_try_left_with.
        eapply step_shape_eq;
          [|by eapply (shape_leave s), (cut_ack s e chunk b)].
        unfold left_with, set_buffer, record; simpl. f_equal.
        by rewrite <-?(assoc_L (++)).
    + rewrite leave_try_left_with.
      eapply step_shape_eq;
        [|by eapply (shape_leave s), (cut_add s e chunk)].
      unfold left_with, record; simpl. f_equal.
      by rewrite <-?(assoc_L (++)).
Qed.

(** A property of the start that every step keeps holds after the run. *)
Lemma run_invariant (P : session → Prop) acts s :
  P s → (∀ a s', P s' → P (step a s')) → P (run acts s).
Proof.
  intros Hs Hstep. induction acts as [|a acts IH] using rev_ind; [done|].
  rewrite run_snoc. by apply Hstep.
Qed.

Lemma run_app acts1 acts2 s : run (acts1 ++ acts2) s = run acts2 (run acts1 s).
Proof. unfold run. by rewrite foldl_app. Qed.

(** The three ways the endpoint can start. *)
Lemma opening_cases oc oready :
  websocket_endpoint oc oready =
  match oc, oready with
  | Raises e, _ =>
      {| phase_of := Closed (Some e); ping_task := NotStarted;
         process_task := NotStarted; buffer := AdaptiveBuffer_new;
         registered := false; trace := [EvConnect (Raises e)] |}
  | Returns, Returns =>
      {| phase_of := Active; ping_task := Running; process_task := Running;
         buffer := AdaptiveBuffer_new; registered := true;
         trace := [EvConnect Returns; EvSend ViaManager ready_msg Returns] |}
  | Returns, Raises e =>
      {| phase_of := Closed (if decide (e = WebSocketDisconnect)
                             then None else Some e);
         ping_task := Cancelled; process_task := Cancelled;
         buffer := AdaptiveBuffer_new; registered := false;
         trace := [EvConnect Returns; EvSend ViaManager ready_msg (Raises e)]
                  ++ teardown e |}
  end.
Proof.
  unfold websocket_endpoint, in_try. unfold_session.
  destruct oc as [|e]; [|done]. destruct oready as [|e]; simpl; [done|].
  by rewrite leave_try_left_with.
Qed.

Lemma count_ev_app (p : sevent → bool) (l1 l2 : list sevent) :
  count_ev p (l1 ++ l2) = (count_ev p l1 + count_ev p l2)%nat.
Proof. unfold count_ev. by rewrite List.filter_app, length_app. Qed.

Lemma scan_app (a b : sevent → bool) (waiting : bool) (l1 l2 : list sevent) :
  scan a b waiting (l1 ++ l2)
  = scan a b waiting l1 ≫= λ waiting', scan a b waiting' l2.
Proof.
  revert waiting. induction l1 as [|e l1 IH]; intros waiting; simpl; [done|].
  destruct (a e), (b e), waiting; simpl; by rewrite ?IH.
Qed.

(** The cases of a step, with the teardown of each exception spelled
    out. *)
Ltac step_cases a s :=
  let o := fresh "o" in
  let e := fresh "e" in
  let Hcut := fresh "Hcut" in
  destruct (step_shaped a s) as [a|o|? o ? ? ?|? o ? ? e|? ? ?|? o e ? ? ? Hcut];
  [ | destruct o | destruct o | | | destruct Hcut; unfold teardown;
                                      destruct (decide (e = WebSocketDisconnect)) ];
  simpl in *.

(** *** What a run can and cannot do *)

(** A session that has left its receive loop has no task running. *)
Lemma closed_is_quiet oc oready acts :
  phase_of (run acts (websocket_endpoint oc oready)) ≠ Active →
  ping_task (run acts (websocket_endpoint oc oready)) ≠ Running ∧
  process_task (run acts (websocket_endpoint oc oready)) ≠ Running.
Proof.
  apply (run_invariant (λ s, phase_of s ≠ Active →
           ping_task s ≠ Running ∧ process_task s ≠ Running)).
  - rewrite opening_cases. destruct oc, oready; simpl; naive_solver.
  - intros a s IH. step_cases a s; try done;
      try (intros _; unfold stop; split; by repeat case_match).
    all: intros Hp; destruct (IH Hp); congruence.
Qed.

(** Once the endpoint has left its receive loop the session does not
    move: whatever the scheduler and the peer do next, no heartbeat, no
    chord message and no acknowledgment is sent, and nothing is buffered. *)
Theorem closed_session_is_inert oc oready acts1 acts2 :
  phase_of (run acts1 (websocket_endpoint oc oready)) ≠ Active →
  run (acts1 ++ acts2) (websocket_endpoint oc oready)
  = run acts1 (websocket_endpoint oc oready).
Proof.
  intros Hp. rewrite run_app.
  destruct (closed_is_quiet _ _ _ Hp). by apply run_closed.
Qed.


(** In a session that connected, the [finally] clause runs once, when
    the endpoint leaves its loop, and not before: each task is cancelled
    once and the manager is told to disconnect once. *)
Theorem teardown_runs_once oready acts :
  count_ev is_disconnect (trace (run acts (websocket_endpoint Returns oready)))
  = (if is_active (phase_of (run acts (websocket_endpoint Returns oready)))
     then 0 else 1)%nat ∧
  count_ev (is_cancel PingTask)
    (trace (run acts (websocket_endpoint Returns oready)))
  = (if is_active (phase_of (run acts (websocket_endpoint Returns oready)))
     then 0 else 1)%nat ∧
  count_ev (is_cancel ProcessTask)
    (trace (run acts (websocket_endpoint Returns oready)))
  = (if is_active (phase_of (run acts (websocket_endpoint Returns oready)))
     then 0 else 1)%nat.
Proof.
  apply (run_invariant (λ s,
    count_ev is_disconnect (trace s)
    = (if is_active (phase_of s) then 0 else 1)%nat ∧
    count_ev (is_cancel PingTask) (trace s)
    = (if is_active (phase_of s) then 0 else 1)%nat ∧
    count_ev (is_cancel ProcessTask) (trace s)
    = (if is_active (phase_of s) then 0 else 1)%nat)).
  - rewrite opening_cases. destruct oready as [|e]; simpl; [done|].
    unfold teardown. by destruct (decide (e = WebSocketDisconnect)).
  - intros a s (IH1 & IH2 & IH3).
    step_cases a s; rewrite ?count_ev_app, ?IH1, ?IH2, ?IH3;
      repeat match goal with H : phase_of s = Active |- _ => rewrite H end;
      done.
Qed.

(** In a session that connected, the endpoint returns normally exactly
    when a WebSocketDisconnect ended its loop, and then it has logged the
    disconnect once; any other exception leaves the endpoint, unlogged. *)
Theorem disconnect_is_swallowed oready acts :
  match phase_of (run acts (websocket_endpoint Returns oready)) with
  | Active =>
      count_ev is_disconnect_log
        (trace (run acts (websocket_endpoint Returns oready))) = 0%nat
  | Closed None =>
      count_ev is_disconnect_log
        (trace (run acts (websocket_endpoint Returns oready))) = 1%nat
  | Closed (Some e) =>
      e ≠ WebSocketDisconnect ∧
      count_ev is_disconnect_log
        (trace (run acts (websocket_endpoint Returns oready))) = 0%nat
  end.
Proof.
  apply (run_invariant (λ s,
    match phase_of s with
    | Active => count_ev is_disconnect_log (trace s) = 0%nat
    | Closed None => count_ev is_disconnect_log (trace s) = 1%nat
    | Closed (Some e) =>
        e ≠ WebSocketDisconnect ∧ count_ev is_disconnect_log (trace s) = 0%nat
    end)).
  - rewrite opening_cases. destruct oready as [|e]; simpl; [done|].
    unfold teardown. by destruct (decide (e = WebSocketDisconnect)).
  - intros a s IH.
    step_cases a s; rewrite ?count_ev_app;
      change (count_ev is_disconnect_log []) with 0%nat;
      repeat match goal with
             | |- context [count_ev is_disconnect_log (?x :: ?l)] =>
                 let v := eval vm_compute in
                            (count_ev is_disconnect_log (x :: l)) in
                 change (count_ev is_disconnect_log (x :: l)) with v
             end;
      rewrite ?Nat.add_0_r;
      repeat match goal with H : phase_of s = Active |- _ => rewrite H in IH end;
      rewrite ?IH; try done; destruct (phase_of s) as [|[?|]]; done.
Qed.

(** Every ping leaves on the socket itself, and every other message,
    ready, acknowledgment or chords, leaves through the manager. *)
Theorem channel_discipline oc oready acts :
  Forall channel_ok (trace (run acts (websocket_endpoint oc oready))).
Proof.
  assert (∀ tr, Forall channel_ok tr → ∀ d,
            Forall channel_ok d → Forall channel_ok (tr ++ d)) as Happ.
  { intros tr Htr d Hd. by apply Forall_app. }
  apply (run_invariant (λ s, Forall channel_ok (trace s))).
  - rewrite opening_cases. destruct oc as [|e0], oready as [|e1]; simpl;
      unfold teardown; try destruct (decide (e1 = WebSocketDisconnect));
      repeat (apply List.Forall_cons; [simpl; by eauto|]);
      apply List.Forall_nil.
  - intros a s IH.
    step_cases a s; try done; apply Happ; try done;
      repeat (apply List.Forall_cons; [simpl; by eauto 6|]);
      apply List.Forall_nil.
Qed.

(** Each of the three streams of a session alternates request and
    answer, the request first: an acknowledgment answers one buffered
    message that had none yet, a ping one sleep, a chord message one
    suggestion that returned; and when a step is over no request waits. *)
Theorem streams_alternate oc oready acts :
  scan is_add (sends_kind KAck) false
    (trace (run acts (websocket_endpoint oc oready))) = Some false ∧
  scan is_sleep (sends_kind KPing) false
    (trace (run acts (websocket_endpoint oc oready))) = Some false ∧
  scan is_suggested (sends_kind KChords) false
    (trace (run acts (websocket_endpoint oc oready))) = Some false.
Proof.
  apply (run_invariant (λ s,
    scan is_add (sends_kind KAck) false (trace s) = Some false ∧
    scan is_sleep (sends_kind KPing) false (trace s) = Some false ∧
    scan is_suggested (sends_kind KChords) false (trace s) = Some false)).
  - rewrite opening_cases. destruct oc as [|e0], oready as [|e1]; simpl;
      try done.
    unfold teardown. by destruct (decide (e1 = WebSocketDisconnect)).
  - intros a s (IH1 & IH2 & IH3).
    step_cases a s; rewrite ?scan_app, ?IH1, ?IH2, ?IH3; done.
Qed.

(** A task that is not running stays as it is and makes no event again:
    a heartbeat that crashed or was cancelled sends no further ping, a
    processing task that crashed calls the suggester no more and sends no
    further chords; nothing in the endpoint restarts a task. *)
Theorem stopped_task_stays_down (t : task_id) s acts :
  task t s ≠ Running →
  task t (run acts s) = task t s ∧
  List.filter (task_event t) (trace (run acts s))
  = List.filter (task_event t) (trace s).
Proof.
  intros Hdown.
  apply (run_invariant (λ s',
    task t s' = task t s ∧
    List.filter (task_event t) (trace s')
    = List.filter (task_event t) (trace s))); [done|].
  intros a s' [IH1 IH2]. rewrite <-IH1 in Hdown. rewrite <-IH1, <-IH2.
  clear IH1 IH2. unfold task in *.
  step_cases a s'; rewrite ?List.filter_app; destruct t; simpl in *;
    rewrite ?(right_id_L [] (++)); try done;
    unfold stop; by repeat case_match.
Qed.

(** Only a turn of the receive loop ends a session: heartbeats and
    window processing, whatever fails in them, leave the endpoint in its
    loop, and the [finally] clause does not run: no task is cancelled and
    the endpoint does not call the manager's disconnect. *)
Theorem only_receive_ends_session s acts :
  Forall (λ a, ∀ i o, a ≠ Receive i o) acts →
  phase_of (run acts s) = phase_of s ∧
  count_ev is_disconnect (trace (run acts s))
  = count_ev is_disconnect (trace s) ∧
  count_ev (is_cancel PingTask) (trace (run acts s))
  = count_ev (is_cancel PingTask) (trace s) ∧
  count_ev (is_cancel ProcessTask) (trace (run acts s))
  = count_ev (is_cancel ProcessTask) (trace s).
Proof.
  induction acts as [|a acts IH] using rev_ind; [done|].
  intros [Hacts Ha]%Forall_app. apply List.Forall_inv in Ha.
  destruct (IH Hacts) as (IH1 & IH2 & IH3 & IH4).
  rewrite run_snoc, <-IH1, <-IH2, <-IH3, <-IH4.
  step_cases a (run acts s); rewrite ?count_ev_app; simpl;
    rewrite ?Nat.add_0_r; try done; exfalso; by eapply Ha.
Qed.

(** When [manager.connect] raises, the exception leaves the endpoint at
    once: no task is created, nothing is sent, the [finally] clause does
    not run, and nothing can happen in the session afterwards. *)
Theorem failed_connect_starts_nothing e oready acts :
  run acts (websocket_endpoint (Raises e) oready)
  = {| phase_of := Closed (Some e); ping_task := NotStarted;
       process_task := NotStarted; buffer := AdaptiveBuffer_new;
       registered := false; trace := [EvConnect (Raises e)] |}.
Proof. rewrite opening_cases. by apply run_closed. Qed.

End SessionRuns.

(** ** More on the request pipeline *)


Section PipelineFacts.
Context {Audio Features CacheSt : Type}.
Context `{!Collaborators Audio Features} `{!Cache Features CacheSt}.

Implicit Types (req : ChordRequest) (w : World CacheSt).

(** In a request the thread pool gets the four CPU-bound stages and
    nothing else: decode and the two cache calls are awaited on the event
    loop. *)
Theorem call_contexts req w :
  ∃ evs, log (call req w).2 = log w ++ evs ∧
    Forall (λ ev, ev_ctx ev = ThreadPool ↔ cpu_bound (ev_stage ev) = true) evs.
Proof.
  destruct (call_cases req w); eexists; (split; [reflexivity|]);
    repeat (apply List.Forall_cons; [simpl; naive_solver|]);
    apply List.Forall_nil.
Qed.

(** A call stores in the cache at most once, and what it stores is what
    the suggester returned for the denoised features of the request,
    after a lookup of these features that missed.  Without a store the
    cache is as the lookup left it, and untouched when the call did not
    reach the lookup. *)
Theorem call_stores_once req w :
  ∃ evs, log (call req w).2 = log w ++ evs ∧
    (length (filter (λ st, st = CacheSet) (stages_of evs)) ≤ 1)%nat ∧
    (CacheSet ∈ stages_of evs →
     ∃ a f f' c cs,
       load_audio (file_path req) = Ok a ∧ extract_mfcc a = Ok f ∧
       denoise f = Ok f' ∧ get_chords f' (cache_st w) = (Ok None, c) ∧
       suggest f' = Ok cs ∧
       cache_st (call req w).2 = (set_chords f' cs c).2) ∧
    (CacheSet ∉ stages_of evs → CacheGet ∈ stages_of evs →
     ∃ a f f',
       load_audio (file_path req) = Ok a ∧ extract_mfcc a = Ok f ∧
       denoise f = Ok f' ∧
       cache_st (call req w).2 = (get_chords f' (cache_st w)).2) ∧
    (CacheGet ∉ stages_of evs → cache_st (call req w).2 = cache_st w).
Proof.
  destruct (call_cases req w) as
    [e E1|a e E1 E2|a f e E1 E2 E3|a f f' e c E1 E2 E3 E4
    |a f f' cs c r E1 E2 E3 E4 ->|a f f' c e E1 E2 E3 E4 E5
    |a f f' c cs e c' E1 E2 E3 E4 E5 E6|a f f' c cs c' r E1 E2 E3 E4 E5 E6 ->];
    eexists; (split; [reflexivity|]); simpl;
    (split; [vm_compute; lia|]);
    (split; [intros Hin|split; [intros Hnot Hin|intros Hnot]]).
  (* before the lookup *)
  1,2,4,5,7,8: not_mem Hin.
  1-3: done.
  (* a lookup and no store *)
  1,4,7: not_mem Hin.
  1,3,5: exists a, f, f'; by rewrite E4.
  1-3: destruct Hnot; mem.
  (* a store *)
  1,4: exists a, f, f', c, cs; by rewrite E6.
  1,3: destruct Hnot; mem.
  1,2: destruct Hnot; mem.
Qed.

(** Calls repeated on a cache that reads what was written to it: when a
    lookup leaves the cache as it is, and a store on a cache that is up
    leaves it up with the stored chords at the stored features, then
    after a first call that returned, on a cache that is up, every
    further call with the same request hits, returns the same response
    and leaves the cache unchanged. *)
Theorem repeated_calls_are_stable (up : CacheSt → Prop) req w resp (n : nat) :
  (∀ f c, (get_chords f c).2 = c) →
  (∀ f cs c, up c →
     (set_chords f cs c).1 = Ok tt →
     up (set_chords f cs c).2 ∧
     (get_chords f (set_chords f cs c).2).1 = Ok (Some cs)) →
  up (cache_st w) →
  (suggest_chords req w).1 = Ok resp →
  (suggest_chords req
     (Nat.iter n (λ w', (suggest_chords req w').2) (suggest_chords req w).2)).1
  = Ok resp ∧
  stages_of
    (new_events
       (Nat.iter n (λ w', (suggest_chords req w').2) (suggest_chords req w).2)
       (suggest_chords req
          (Nat.iter n (λ w', (suggest_chords req w').2)
             (suggest_chords req w).2)).2)
  = spec_order true ∧
  cache_st
    (suggest_chords req
       (Nat.iter n (λ w', (suggest_chords req w').2) (suggest_chords req w).2)).2
  = cache_st (suggest_chords req w).2.
Proof.
  unfold suggest_chords. intros Hget Hset Hup Hresp.
  (* after the first call the cache holds the response's chords *)
  assert (∃ a f f',
    load_audio (file_path req) = Ok a ∧ extract_mfcc a = Ok f ∧
    denoise f = Ok f' ∧ generate (chords resp) = Ok (accompaniment resp) ∧
    get_chords f' (cache_st (call req w).2)
    = (Ok (Some (chords resp)), cache_st (call req w).2))
    as (a & f & f' & E1 & E2 & E3 & E5 & Hhit).
  { destruct (call_cases req w) as
      [e E1|a e E1 E2|a f e E1 E2 E3|a f f' e c E1 E2 E3 E4
      |a f f' cs c r E1 E2 E3 E4 ->|a f f' c e E1 E2 E3 E4 E5
      |a f f' c cs e c' E1 E2 E3 E4 E5 E6|a f f' c cs c' r E1 E2 E3 E4 E5 E6 ->];
      simpl in *; try done.
    - destruct (generate cs) as [acc|] eqn:E5; simplify_eq/=.
      exists a, f, f'. repeat split; try done.
      pose proof (Hget f' (cache_st w)) as Hc. rewrite E4 in Hc. simpl in Hc.
      by subst c.
    - destruct (generate cs) as [acc|] eqn:E7; simplify_eq/=.
      exists a, f, f'. repeat split; try done.
      pose proof (Hget f' (cache_st w)) as Hc. rewrite E4 in Hc. simpl in Hc.
      subst c. destruct (Hset f' cs (cache_st w) Hup) as [_ Hread];
        [by rewrite E6|].
      rewrite E6 in Hread. simpl in Hread.
      pose proof (Hget f' c') as Hc'.
      destruct (get_chords f' c') as [r c'']. simpl in *. by subst. }
  (* every further call starts from a world with that cache *)
  assert (∀ w', cache_st w' = cache_st (call req w).2 →
    (call req w').1 = Ok resp ∧
    stages_of (new_events w' (call req w').2) = spec_order true ∧
    cache_st (call req w').2 = cache_st (call req w).2) as Hnext.
  { intros w' Hw'. rewrite <-Hw' in Hhit.
    destruct (call_cases req w'); chase; try congruence.
    rewrite E5. destruct resp as [cs acc]; simpl in *.
    split; [done|]. split; [by erewrite new_events_app by done|done]. }
  apply Hnext. induction n as [|n IH]; simpl; [done|]. by apply Hnext.
Qed.

End PipelineFacts.

(** ** The encoding of a payload *)

(** The comparisons of [utf8_char], as propositions. *)
Ltac compare_points :=
  repeat match goal with
         | |- context [?a <? ?b] => destruct (Z.ltb_spec a b)
         | |- context [?a <=? ?b] => destruct (Z.leb_spec a b)
         | H : context [?a <? ?b] |- _ => destruct (Z.ltb_spec a b)
         | H : context [?a <=? ?b] |- _ => destruct (Z.leb_spec a b)
         end; simpl in *.

Lemma utf8_char_scalar c : is_Some (utf8_char c) ↔ scalar c.
Proof.
  unfold utf8_char, scalar. compare_points; split;
    try (intros [? ?]; done); try (intros _; by eexists); try lia;
    intros [b Hb]; try done; lia.
Qed.

Lemma utf8_char_octets c b :
  utf8_char c = Some b →
  Forall (λ x, 0 ≤ x < 256) b ∧ (1 ≤ length b ≤ 4)%nat.
Proof.
  unfold utf8_char. compare_points; intros Hb; simplify_eq; simpl;
    (split; [|lia]);
    repeat (apply List.Forall_cons;
            [first [lia | (pose proof (Z.mod_pos_bound c 64);
                           pose proof (Z.mod_pos_bound (c / 64) 64);
                           pose proof (Z.mod_pos_bound (c / 4096) 64);
                           pose proof (Z.div_lt_upper_bound c 64 32);
                           pose proof (Z.div_lt_upper_bound c 4096 16);
                           pose proof (Z.div_lt_upper_bound c 262144 5);
                           pose proof (Z.div_pos c 64);
                           pose proof (Z.div_pos c 4096);
                           pose proof (Z.div_pos c 262144); lia)]|]);
    apply List.Forall_nil.
Qed.

(** One code point is read off the head of its octets: no encoding is
    the start of another. *)
Lemma utf8_char_prefix_free c1 c2 b1 b2 (r1 r2 : bytes) :
  utf8_char c1 = Some b1 → utf8_char c2 = Some b2 →
  b1 ++ r1 = b2 ++ r2 → c1 = c2 ∧ r1 = r2.
Proof.
  unfold utf8_char. intros H1 H2 Heq.
  compare_points; simplify_eq/=;
    try (exfalso; Z.div_mod_to_equations; lia);
    (split; [Z.div_mod_to_equations; lia|done]).
Qed.

(** A payload has an encoding exactly when it holds no surrogate (and
    nothing beyond the code points of Unicode): [encode] raises
    UnicodeEncodeError on the others and on no other payload. *)
Theorem encode_defined_on_scalars (s : pystr) :
  (∃ b, encode s = Ok b) ↔ Forall scalar s.
Proof.
  unfold encode. induction s as [|c s IH]; simpl.
  - split; [by constructor|]. intros _. by eexists.
  - rewrite Forall_cons, <-IH, <-utf8_char_scalar.
    destruct (utf8_char c) as [b|], (utf8 s) as [bs|]; simpl; split;
      try (intros [? ?]; done); try (intros _; by eexists);
      try (intros _; split; by eexists);
      try (intros [_ [? ?]]; done); intros [[? ?] _]; done.
Qed.

(** The chunk of a payload is made of octets, at least one and at most
    four for each code point. *)
Theorem encode_octets (s : pystr) (b : bytes) :
  encode s = Ok b →
  Forall (λ x, 0 ≤ x < 256) b ∧
  (length s ≤ length b ≤ 4 * length s)%nat.
Proof.
  unfold encode. revert b. induction s as [|c s IH]; intros b; simpl.
  - intros [= <-]. split; [constructor|simpl; lia].
  - destruct (utf8_char c) as [b1|] eqn:Hc; [|done].
    destruct (utf8 s) as [bs|]; [|done]. intros [= <-].
    destruct (utf8_char_octets _ _ Hc) as [Hb1 Hlen].
    destruct (IH bs eq_refl) as [Hbs Hlens].
    split; [by apply Forall_app|]. rewrite length_app. lia.
Qed.

(** An ASCII payload is buffered as it is, one octet for each character. *)
Theorem encode_ascii (s : pystr) :
  Forall (λ c, 0 ≤ c < 128) s → encode s = Ok s.
Proof.
  unfold encode. induction s as [|c s IH]; [done|].
  intros [Hc Hs]%Forall_cons. simpl.
  specialize (IH Hs). destruct (utf8 s) as [bs|]; [|done].
  injection IH as ->. unfold utf8_char.
  destruct (Z.ltb_spec c 0); [lia|]. by destruct (Z.ltb_spec c 128); [|lia].
Qed.

(** Payloads that differ are buffered as chunks that differ: the payload
    can be read back from its chunk. *)
Theorem encode_injective (s1 s2 : pystr) (b : bytes) :
  encode s1 = Ok b → encode s2 = Ok b → s1 = s2.
Proof.
  unfold encode. revert s2 b.
  induction s1 as [|c1 s1 IH]; intros [|c2 s2] b; simpl; try done.
  - destruct (utf8_char c2) as [b2|] eqn:H2; [|done].
    destruct (utf8 s2) as [bs2|]; [|done]. intros [= <-] [= Hnil].
    destruct (utf8_char_octets _ _ H2) as [_ Hlen].
    apply (f_equal length) in Hnil. rewrite length_app in Hnil.
    simpl in Hnil. lia.
  - destruct (utf8_char c1) as [b1|] eqn:H1; [|done].
    destruct (utf8 s1) as [bs1|]; [|done]. intros [= <-] [= Hnil].
    destruct (utf8_char_octets _ _ H1) as [_ Hlen].
    apply (f_equal length) in Hnil. rewrite length_app in Hnil.
    simpl in Hnil. lia.
  - destruct (utf8_char c1) as [b1|] eqn:H1; [|done].
    destruct (utf8 s1) as [bs1|] eqn:Hs1; [|done].
    destruct (utf8_char c2) as [b2|] eqn:H2; [|done].
    destruct (utf8 s2) as [bs2|] eqn:Hs2; [|done].
    intros [= <-] [= Heq].
    destruct (utf8_char_prefix_free _ _ _ _ _ _ H2 H1 Heq) as [-> ->].
    f_equal. apply (IH s2 bs1); [done|]. by rewrite Hs2.
Qed.

(** ** The envelope *)

Lemma dict_get_None k (fields : list (string * json)) :
  dict_get k fields = None ↔ k ∉ fields.*1.
Proof.
  induction fields as [|[k' v'] rest IH]; simpl.
  - split; [intros _; apply not_elem_of_nil|done].
  - rewrite not_elem_of_cons, <-IH.
    destruct (dict_get k rest).
    + split; [done|]. by intros [_ ?].
    + destruct (decide (k = k')); split; try done. by intros [? _].
Qed.

(** The value of a key is the one of its last item. *)
Lemma dict_get_Some k v (fields : list (string * json)) :
  dict_get k fields = Some v
  ↔ ∃ pre post, fields = pre ++ (k, v) :: post ∧ k ∉ post.*1.
Proof.
  split.
  - revert v. induction fields as [|[k' v'] rest IH]; intros v; simpl; [done|].
    destruct (dict_get k rest) as [v''|] eqn:Hrest.
    + intros [= ->]. destruct (IH v eq_refl) as (pre & post & -> & Hpost).
      by exists ((k', v') :: pre), post.
    + destruct (decide (k = k')) as [<-|]; [|done]. intros [= ->].
      exists [], rest. split; [done|]. by apply dict_get_None.
  - intros (pre & post & -> & Hpost). apply dict_get_None in Hpost.
    induction pre as [|[k' v'] pre IH]; simpl.
    + rewrite Hpost. by rewrite decide_True.
    + by rewrite IH.
Qed.

Section EnvelopeFacts.
Context {Features : Type} `{!Streaming Features}.

(** An envelope makes a [WSMessage] exactly when it is an object whose
    last [data] item validates as a string, which is then the payload;
    the items before it and the items with other keys do not count.  A
    value that is not an object raises TypeError, an object without a
    valid [data] raises ValidationError, and nothing else is raised. *)
Theorem envelope_verdict (v : json) :
  (∀ m, WSMessage_init v = Ok m
        ↔ ∃ pre d post, v = JObj (pre ++ ("data", d) :: post) ∧
                        ("data" ∉ post.*1) ∧ str_validator d = Some (data m)) ∧
  (∀ e, WSMessage_init v = Raise e →
        match v with
        | JObj _ => e = ValidationError
        | _ => e = TypeError
        end).
Proof.
  split.
  - intros [payload]. split.
    + unfold WSMessage_init. destruct v as [| | | | |fields]; try done.
      destruct (dict_get "data" fields) as [d|] eqn:Hget; [|done].
      destruct (str_validator d) as [s|] eqn:Hval; [|done]. intros [= ->].
      apply dict_get_Some in Hget as (pre & post & -> & Hpost).
      by exists pre, d, post.
    + intros (pre & d & post & -> & Hpost & Hval). unfold WSMessage_init.
      assert (dict_get "data" (pre ++ ("data", d) :: post) = Some d) as ->.
      { apply dict_get_Some. by exists pre, post. }
      simpl in Hval. by rewrite Hval.
  - intros e. unfold WSMessage_init. destruct v as [| | | | |fields];
      try (by intros [= <-]).
    destruct (dict_get "data" fields) as [d|]; [|by intros [= <-]].
    destruct (str_validator d); [done|by intros [= <-]].
Qed.

End EnvelopeFacts.

(** ** The lifecycle of the application *)

Ltac unfold_app :=
  unfold startup, shutdown, get_db, get_redis, get_manager, get_cache,
    getattr, getattr_default, setattr, note, redis_of,
    mbind, mret, appm_bind, appm_ret in *.

(** Start-up, in one piece. *)
Lemma startup_runs (b : Backends) (app : App) :
  startup b app =
  (Some tt,
   {| attrs :=
        <["cache" := PCache (redis_of b)]>
          (<["manager" := PManager (redis_of b)]>
             (<["redis" := redis_of b]>
                (<["db_pool" := match create_pool b with
                                | Ok h => PPool h
                                | Raise _ => PNone
                                end]> (attrs app))));
      journal := journal app ++ startup_warnings b |}).
Proof.
  destruct b as [[h|e] [] [h'|e'] [|e'']]; unfold_app;
    unfold startup_warnings; simpl;
    repeat (rewrite ?lookup_insert_eq, ?insert_insert_eq; simpl;
            try rewrite lookup_insert_ne by done);
    by rewrite ?(right_id_L [] (++)), <-?(assoc_L (++)).
Qed.

(** Start-up returns whatever the database and redis do, and always
    leaves the four attributes on the state: the pool or [None], the
    redis client or [None] (a client only when the module is there, the
    client was made and its ping returned), and a manager and a cache
    built on that same value; no other attribute is touched. *)
Theorem startup_survives_backends (b : Backends) (app : App) :
  (startup b app).1 = Some tt ∧
  attrs (startup b app).2 !! "db_pool"
  = Some (match create_pool b with Ok h => PPool h | Raise _ => PNone end) ∧
  attrs (startup b app).2 !! "redis" = Some (redis_of b) ∧
  attrs (startup b app).2 !! "manager" = Some (PManager (redis_of b)) ∧
  attrs (startup b app).2 !! "cache" = Some (PCache (redis_of b)) ∧
  ∀ k, k ∉ ["db_pool"; "redis"; "manager"; "cache"] →
       attrs (startup b app).2 !! k = attrs app !! k.
Proof.
  rewrite startup_runs. simpl. split; [done|].
  repeat (split; [by simplify_map_eq|]).
  intros k Hk. repeat (rewrite lookup_insert_ne; [|set_solver]). done.
Qed.

(** Shutdown after start-up returns, leaves the state as it is, and
    closes what start-up opened and kept: the pool when the database was
    reached, the redis client and its connection pool when redis was.  A
    client whose ping failed at start-up was dropped from the state: it
    is not closed. *)
Theorem shutdown_closes_what_is_open (b : Backends) (app : App) :
  shutdown (redis_module b) (startup b app).2
  = (Some tt,
     {| attrs := attrs (startup b app).2;
        journal := journal (startup b app).2 ++ shutdown_closes b |}) ∧
  (∀ h e, redis_from_url b = Ok h → redis_ping b = Raises e →
          ObjClosed (PRedis h) ∉ shutdown_closes b).
Proof.
  split.
  - rewrite startup_runs. simpl.
    destruct b as [[h|e] [] [h'|e'] [|e'']]; unfold_app;
      unfold shutdown_closes; simpl;
      repeat (rewrite ?lookup_insert_eq; simpl;
              try rewrite lookup_insert_ne by done);
      by rewrite ?(right_id_L [] (++)), <-?(assoc_L (++)).
  - intros h e Hurl Hping Hin. unfold shutdown_closes, redis_of in Hin.
    rewrite Hurl, Hping in Hin.
    destruct (create_pool b), (redis_module b); simpl in Hin; not_mem Hin.
Qed.

(** Shutdown reads [db_pool] off the state directly: it raises
    AttributeError, before closing anything, exactly when that attribute
    was never set; a missing [redis] attribute is tolerated. *)
Theorem shutdown_needs_db_pool (module : bool) (app : App) :
  ((shutdown module app).1 = Some tt ↔ is_Some (attrs app !! "db_pool")) ∧
  (attrs app !! "db_pool" = None → shutdown module app = (None, app)).
Proof.
  unfold_app. destruct (attrs app !! "db_pool") as [pool|] eqn:Hpool; simpl.
  - split; [|done]. split; [by eexists|]. intros _.
    destruct (truthy pool); simpl; rewrite ?Hpool; simpl;
      destruct module; simpl; try done;
      destruct (attrs app !! "redis") as [[]|] eqn:Hredis;
      repeat (progress (cbn [attrs journal]; rewrite ?Hredis; simpl));
      done.
  - split; [|done]. split; [done|]. by intros [? ?].
Qed.

(** After start-up the four dependencies are there, and the manager of
    the websocket route and the cache of the chord route are built on
    the very client [get_redis] gives, a client or [None]. *)
Theorem dependencies_after_startup (b : Backends) (app : App) :
  get_redis (startup b app).2 = (Some (redis_of b), (startup b app).2) ∧
  get_manager (startup b app).2
  = (Some (PManager (redis_of b)), (startup b app).2) ∧
  get_cache (startup b app).2
  = (Some (PCache (redis_of b)), (startup b app).2) ∧
  (get_db (startup b app).2).1
  = Some (match create_pool b with Ok h => PPool h | Raise _ => PNone end) ∧
  (truthy (redis_of b) = true
   ↔ redis_module b = true ∧ is_ok (redis_from_url b) = true ∧
     redis_ping b = Returns).
Proof.
  rewrite startup_runs.
  unfold get_redis, get_manager, get_cache, get_db, getattr, getattr_default.
  simpl. repeat (split; [by simplify_map_eq|]).
  unfold redis_of.
  destruct (redis_module b), (redis_from_url b), (redis_ping b); simpl;
    split; try done; by intros (? & ? & ?).
Qed.

(** ** The profiling middleware *)

Section ProfilingFacts.
Context {Clock : Type} (minus : Clock → Clock → Clock) (str : Clock → string).

Lemma lookup_not_named key key' (raw : Headers) :
  key' ≠ key → lookup_raw key' (not_named key raw) = lookup_raw key' raw.
Proof.
  intros Hne. induction raw as [|[k v] raw IH]; [done|].
  unfold not_named in *. simpl. case_bool_decide; simpl in *.
  - subst k. by rewrite decide_False.
  - by rewrite IH.
Qed.

Lemma not_named_idemp key (raw : Headers) :
  not_named key (not_named key raw) = not_named key raw.
Proof.
  induction raw as [|[k v] raw IH]; [done|].
  unfold not_named in *. simpl. case_bool_decide as Hk; simpl; [done|].
  by rewrite bool_decide_false, IH.
Qed.

Lemma named_not_named key (raw : Headers) : named key (not_named key raw) = [].
Proof.
  induction raw as [|[k v] raw IH]; [done|].
  unfold named, not_named in *. simpl. case_bool_decide as Hk; simpl; [done|].
  by rewrite bool_decide_false.
Qed.

Lemma set_raw_lookup key value (raw : Headers) :
  lookup_raw key (set_raw key value raw) = Some value.
Proof.
  induction raw as [|[k v] raw IH]; simpl.
  - by rewrite decide_True.
  - case_decide; simpl; [by rewrite decide_True|by rewrite decide_False].
Qed.

Lemma set_raw_lookup_ne key key' value (raw : Headers) :
  key' ≠ key → lookup_raw key' (set_raw key value raw) = lookup_raw key' raw.
Proof.
  intros Hne. induction raw as [|[k v] raw IH]; simpl.
  - by rewrite decide_False.
  - case_decide as Hk; simpl.
    + subst k. rewrite !decide_False by done. by apply lookup_not_named.
    + by rewrite IH.
Qed.

Lemma set_raw_named key value (raw : Headers) :
  named key (set_raw key value raw) = [(key, value)].
Proof.
  induction raw as [|[k v] raw IH]; unfold named in *; simpl.
  - by rewrite bool_decide_true.
  - case_decide as Hk; simpl.
    + rewrite bool_decide_true by done. f_equal. apply named_not_named.
    + by rewrite bool_decide_false.
Qed.

Lemma set_raw_not_named key value (raw : Headers) :
  not_named key (set_raw key value raw) = not_named key raw.
Proof.
  induction raw as [|[k v] raw IH]; unfold not_named in *; simpl.
  - by rewrite bool_decide_true.
  - case_decide as Hk; simpl.
    + rewrite !bool_decide_true by done. simpl. apply not_named_idemp.
    + rewrite bool_decide_false by done. simpl. by rewrite IH.
Qed.

(** The name of the header in the casings a client may ask it under. *)
Example lower_samples :
  lower "X-Process-Time" = "x-process-time" ∧
  lower "x-process-time" = "x-process-time" ∧
  lower "X-PROCESS-TIME" = "x-process-time" ∧
  lower "Content-Type" = "content-type".
Proof. repeat split; reflexivity. Qed.

(** The middleware hands on the response of the handler, status and
    body, with the duration as its [X-Process-Time] header: the header
    is there once, it is what a look-up under that name in any casing
    gives, the headers of other names are as they were, in their order,
    and so is what a look-up under another name gives; an exception of
    the handler goes through with nothing observed and nothing logged.
    Over the requests of a server the histogram and the log hold, in
    order, the durations of the requests whose handler returned, and of
    no other. *)
Theorem profiling_measures_returned_requests :
  (∀ path start response finish t,
     ∃ response',
       (profiling_middleware minus str path start (Ok response) finish t).1
       = Ok response' ∧
       status response' = status response ∧ body response' = body response ∧
       named "x-process-time" (headers response')
       = [("x-process-time", str (minus finish start))] ∧
       not_named "x-process-time" (headers response')
       = not_named "x-process-time" (headers response) ∧
       (∀ k, lower k = "x-process-time" →
             Headers_get k (headers response')
             = Some (str (minus finish start))) ∧
       (∀ k, lower k ≠ "x-process-time" →
             Headers_get k (headers response')
             = Headers_get k (headers response))) ∧
  (∀ path start e finish t,
     profiling_middleware minus str path start (Raise e) finish t
     = (Raise e, t)) ∧
  (∀ reqs t,
     logged (profile_all minus str reqs t)
     = logged t ++ omap (measured minus) reqs ∧
     observed (profile_all minus str reqs t)
     = observed t ++ (omap (measured minus) reqs).*2).
Proof.
  split; [|split].
  - intros path start response finish t. eexists. split; [reflexivity|].
    cbn [profiling_middleware fst status body headers].
    unfold MutableHeaders_setitem, Headers_get.
    change (lower "X-Process-Time") with "x-process-time".
    split; [done|]. split; [done|].
    split; [apply set_raw_named|]. split; [apply set_raw_not_named|].
    split.
    + intros k ->. apply set_raw_lookup.
    + intros k Hk. by apply set_raw_lookup_ne.
  - done.
  - intros reqs t. induction reqs as [|r reqs [IH1 IH2]] using rev_ind.
    + simpl. by rewrite !(right_id_L [] (++)).
    + assert (profile_all minus str (reqs ++ [r]) t
              = (profiling_middleware minus str (srv_path r) (srv_start r)
                   (srv_handled r) (srv_finish r)
                   (profile_all minus str reqs t)).2) as ->.
      { unfold profile_all. by rewrite foldl_app. }
      rewrite omap_app, fmap_app, !(assoc_L (++)), <-IH1, <-IH2.
      unfold measured, profiling_middleware. simpl.
      destruct (srv_handled r) as [response|e]; simpl;
        by rewrite ?(right_id_L [] (++)).
Qed.

End ProfilingFacts.

(** ** The further facts on the concrete deployment *)

(** On the demo: after the peer closed the socket, a tick and a valid
    envelope change nothing. *)
Lemma closed_session_is_inert_witness :
  @run _ _ Demo.collab Demo.streaming
    ([Receive PeerClosed Returns]
     ++ [Tick Returns; Receive (Frame Demo.envelope) Returns]) Demo.opened
  = @run _ _ Demo.collab Demo.streaming [Receive PeerClosed Returns] Demo.opened.
Proof.
  apply (@closed_session_is_inert _ _ Demo.collab Demo.streaming
           Returns Returns [Receive PeerClosed Returns]
           [Tick Returns; Receive (Frame Demo.envelope) Returns]).
  vm_compute. discriminate.
Defined.

(** On the demo: a heartbeat whose send failed sends no ping again,
    while the session goes on. *)
Lemma stopped_task_stays_down_witness :
  task PingTask
    (@run _ _ Demo.collab Demo.streaming
       [Tick Returns; Receive (Frame Demo.envelope) Returns]
       (@run _ _ Demo.collab Demo.streaming
          [Tick (Raises TransportError)] Demo.opened))
  = Crashed TransportError.
Proof.
  apply (@stopped_task_stays_down _ _ Demo.collab Demo.streaming PingTask
           (@run _ _ Demo.collab Demo.streaming
              [Tick (Raises TransportError)] Demo.opened)
           [Tick Returns; Receive (Frame Demo.envelope) Returns]).
  vm_compute. discriminate.
Defined.

(** On the demo: after the envelope was buffered, a heartbeat whose
    send fails and a window whose chords cannot be sent leave the session
    in its loop. *)
Lemma only_receive_ends_session_witness :
  phase_of (@run _ _ Demo.collab Demo.streaming
              [Tick (Raises TransportError); Window 4 (Raises TransportError)]
              (@run _ _ Demo.collab Demo.streaming
                 [Receive (Frame Demo.envelope) Returns] Demo.opened))
  = Active ∧
  sent (trace (@run _ _ Demo.collab Demo.streaming
                 [Tick (Raises TransportError);
                  Window 4 (Raises TransportError)]
                 (@run _ _ Demo.collab Demo.streaming
                    [Receive (Frame Demo.envelope) Returns] Demo.opened)))
  = [ready_msg; ack_msg; ping_msg; chords_msg ["C"; "G"]].
Proof.
  split; [|reflexivity].
  apply (@only_receive_ends_session _ _ Demo.collab Demo.streaming
           (@run _ _ Demo.collab Demo.streaming
              [Receive (Frame Demo.envelope) Returns] Demo.opened)
           [Tick (Raises TransportError); Window 4 (Raises TransportError)]).
  repeat constructor; intros i o; discriminate.
Defined.

(** On the demo, the messages of a session in which the heartbeat ticks,
    an envelope is accepted and its window processed, a ping cannot be
    sent, the heartbeat that ended is scheduled again, a window is asked
    of an empty buffer, a frame that is no envelope arrives, and the
    heartbeat is scheduled after the session ended. *)
Example outbound_on_demo :
  sent (trace (@run _ _ Demo.collab Demo.streaming
                 [Tick Returns; Receive (Frame Demo.envelope) Returns;
                  Window 4 Returns; Tick (Raises TransportError);
                  Tick Returns; Window 4 Returns;
                  Receive (Frame (JNum 7)) Returns; Tick Returns]
                 Demo.opened))
  = [ready_msg; ping_msg; ack_msg; chords_msg ["C"; "G"]; ping_msg] ∧
  @expected _ _ Demo.collab Demo.streaming
    [Tick Returns; Receive (Frame Demo.envelope) Returns;
     Window 4 Returns; Tick (Raises TransportError);
     Tick Returns; Window 4 Returns;
     Receive (Frame (JNum 7)) Returns; Tick Returns]
    (start_view Returns)
  = [ping_msg; ack_msg; chords_msg ["C"; "G"]; ping_msg].
Proof. split; reflexivity. Qed.

(** On the demo: after a first call on the empty cache, the fourth call
    returns the response of the first. *)
Lemma repeated_calls_are_stable_witness :
  (@suggest_chords _ _ _ Demo.collab Demo.cache Demo.request
     (Nat.iter 2
        (λ w', (@suggest_chords _ _ _ Demo.collab Demo.cache
                  Demo.request w').2)
        (@suggest_chords _ _ _ Demo.collab Demo.cache
           Demo.request Demo.up).2)).1
  = Ok {| chords := ["C"; "G"]; accompaniment := ["C"; "G"; "C"; "G"] |}.
Proof.
  apply (@repeated_calls_are_stable _ _ _ Demo.collab Demo.cache
           is_Some Demo.request Demo.up
           {| chords := ["C"; "G"]; accompaniment := ["C"; "G"; "C"; "G"] |}
           2%nat).
  - intros f c. by destruct c.
  - intros f cs c [entries ->] _. split; [by eexists|].
    simpl. unfold Demo.digest, fingerprint. by rewrite lookup_insert_eq.
  - by eexists.
  - apply call_demo.
Defined.

(** On the demo: the four octets of the payload [AAAA]. *)
Lemma encode_octets_witness :
  Forall (λ x, 0 ≤ x < 256) [65; 65; 65; 65] ∧
  (length (py "AAAA") ≤ length [65; 65; 65; 65] ≤ 4 * length (py "AAAA"))%nat.
Proof. apply (encode_octets (py "AAAA") [65; 65; 65; 65]). reflexivity. Defined.

Lemma encode_ascii_witness : encode (py "AAAA") = Ok (py "AAAA").
Proof.
  apply (encode_ascii (py "AAAA")).
  change (py "AAAA") with [65; 65; 65; 65]. repeat constructor; lia.
Defined.

(** The payload with the two octets 195 and 169 is the one character
    233. *)
Lemma encode_injective_witness : [233] = [233].
Proof.
  apply (encode_injective [233] [233] [195; 169]); reflexivity.
Defined.
